(** * The job pipeline of the AI Job Applier extension

    A shallow embedding of the pipeline code of [popup.js] (class
    [JobApplier]) and of the state kept by [background.js], followed by the
    properties of the pipeline that the specification states.

    Modelling choices, all taken from the source:
    - a job is a JavaScript object; [this.jobQueue] is an array of
      references and [this.currentJob] is a reference too.  Objects live in
      a [heap] (a list indexed by address, nothing is ever freed), the queue
      is a list of addresses and mutating a job goes through its address,
      so that aliasing between the queue and [currentJob] is what it is in
      the program;
    - values that cross [chrome.runtime.sendMessage] or
      [chrome.storage.local] are copies: they are [Job] values, and a job
      received in a message is allocated at a fresh address;
    - every handler is run to completion as one step; the results of the
      calls that leave the program (tab navigation, script injection, the
      analysis request, the confirmation dialog, the clock) are arguments of
      the handler;
    - [setTimeout] callbacks of the popup are kept in the state until they
      are fired: the callbacks that run [processJobQueue] and
      [continueProcessing], and the one by which [scrapeJobDescription]
      injects the description script three seconds after the navigation;
      the timers of the injected page scripts and of the display (status
      line, tab switch) are not part of the state;
    - the DOM is reduced to the review section; logging and the
      [debug_logs] and [temp_message_*] storage keys are left out. *)

From stdpp Require Import base option list strings gmap.

Local Open Scope string_scope.
Local Open Scope list_scope.

(** ** Jobs *)

Inductive Status := pending | reviewing | applying | applied | skipped.

#[global] Instance Status_eq_dec : EqDecision Status.
Proof. solve_decision. Defined.

Record Job := mkJob {
  post_id : string;
  jobTitle : string;
  company : string;
  url : string;
  status : Status;
  starred : bool;
  dateFound : string;
  description : option string;
  matchScore : option Z;
  coverLetter : option string;
  error : option string;
  appliedDate : option string
}.

Definition set_status (st : Status) (j : Job) : Job :=
  mkJob (post_id j) (jobTitle j) (company j) (url j) st (starred j)
        (dateFound j) (description j) (matchScore j) (coverLetter j)
        (error j) (appliedDate j).

Definition set_starred (b : bool) (j : Job) : Job :=
  mkJob (post_id j) (jobTitle j) (company j) (url j) (status j) b
        (dateFound j) (description j) (matchScore j) (coverLetter j)
        (error j) (appliedDate j).

Definition set_description (d : option string) (j : Job) : Job :=
  mkJob (post_id j) (jobTitle j) (company j) (url j) (status j) (starred j)
        (dateFound j) d (matchScore j) (coverLetter j)
        (error j) (appliedDate j).

Definition set_matchScore (m : option Z) (j : Job) : Job :=
  mkJob (post_id j) (jobTitle j) (company j) (url j) (status j) (starred j)
        (dateFound j) (description j) m (coverLetter j)
        (error j) (appliedDate j).

Definition set_coverLetter (c : option string) (j : Job) : Job :=
  mkJob (post_id j) (jobTitle j) (company j) (url j) (status j) (starred j)
        (dateFound j) (description j) (matchScore j) c
        (error j) (appliedDate j).

Definition set_error (e : option string) (j : Job) : Job :=
  mkJob (post_id j) (jobTitle j) (company j) (url j) (status j) (starred j)
        (dateFound j) (description j) (matchScore j) (coverLetter j)
        e (appliedDate j).

Definition set_appliedDate (d : option string) (j : Job) : Job :=
  mkJob (post_id j) (jobTitle j) (company j) (url j) (status j) (starred j)
        (dateFound j) (description j) (matchScore j) (coverLetter j)
        (error j) d.

(** The object pushed by the scraping script for one job card. *)
Definition scraped (id title comp link date : string) : Job :=
  mkJob id title comp link pending false date None None None None None.

(** [applied] and [skipped] are the statuses the specification calls
    terminal. *)
Definition terminal (st : Status) : bool :=
  match st with applied | skipped => true | _ => false end.

(** JavaScript truthiness of an optional string: [undefined], [null] and
    the empty string are falsy. *)
Definition truthy (s : option string) : bool :=
  match s with
  | Some x => negb (String.eqb x "")
  | None => false
  end.

(** ** The state of the two contexts *)

Abbreviation addr := nat (only parsing).

(** The object [applicationState] of [background.js], without its timer
    handle (see [processTimeout] below). *)
Record AppState := mkAppState {
  as_isProcessing : bool;
  as_currentJob : option Job;
  as_jobQueue : list Job
}.

(** [chrome.storage.local]: the four settings, the job collection and the
    copy of [applicationState] written by [saveApplicationState]. *)
Record Storage := mkStorage {
  st_keywords : option string;
  st_criteria : option string;
  st_cv : option string;
  st_llmToken : option string;
  st_jobQueue : option (list Job);
  st_applicationState : option AppState
}.

Definition empty_storage : Storage :=
  mkStorage None None None None None None.

Definition st_set_jobQueue (q : list Job) (s : Storage) : Storage :=
  mkStorage (st_keywords s) (st_criteria s) (st_cv s) (st_llmToken s)
            (Some q) (st_applicationState s).

Definition st_set_applicationState (a : AppState) (s : Storage) : Storage :=
  mkStorage (st_keywords s) (st_criteria s) (st_cv s) (st_llmToken s)
            (st_jobQueue s) (Some a).

(** A callback handed to [setTimeout] by the popup, with its delay in
    milliseconds. *)
Inductive Timer :=
  | TProcessJobQueue (delay : nat)      (* () => this.processJobQueue() *)
  | TContinueProcessing (delay : nat)   (* () => this.continueProcessing() *)
  | TInjectDescription (job : addr) (delay : nat).
      (* async () => { await chrome.scripting.executeScript(...) }, armed by
         scrapeJobDescription(job) *)

(** A call that leaves the program. *)
Inductive Call :=
  | InjectScraping (keywords : string)  (* the listing script was injected *)
  | ScrapeDescription (job : addr)      (* scrapeJobDescription(job) went through:
                                           the tab was sent to job.url *)
  | InjectDescription (job : addr)      (* the description script was injected *)
  | Analyze (job : addr)                (* the analysis request was sent *)
  | Submit (job : addr).                (* submitApplication(job) went through *)

Record World := mkWorld {
  (* the JobApplier instance of the popup *)
  heap : list Job;
  jobQueue : list addr;
  currentJob : option addr;
  isProcessing : bool;
  isPaused : bool;
  contentListeners : nat;        (* listeners added by injectJobScrapingScript *)
  reviewSection : option addr;   (* Some j: the section is active and shows j *)
  timers : list Timer;
  (* durable storage and the background context *)
  storage : Storage;
  applicationState : AppState;
  processTimeout : nat;          (* armed 5000 ms notifications *)
  (* calls issued so far, oldest first *)
  calls : list Call
}.

Definition with_heap (h : list Job) (w : World) : World :=
  mkWorld h (jobQueue w) (currentJob w) (isProcessing w) (isPaused w)
          (contentListeners w) (reviewSection w) (timers w) (storage w)
          (applicationState w) (processTimeout w) (calls w).

Definition with_jobQueue (q : list addr) (w : World) : World :=
  mkWorld (heap w) q (currentJob w) (isProcessing w) (isPaused w)
          (contentListeners w) (reviewSection w) (timers w) (storage w)
          (applicationState w) (processTimeout w) (calls w).

Definition with_currentJob (c : option addr) (w : World) : World :=
  mkWorld (heap w) (jobQueue w) c (isProcessing w) (isPaused w)
          (contentListeners w) (reviewSection w) (timers w) (storage w)
          (applicationState w) (processTimeout w) (calls w).

Definition with_isProcessing (b : bool) (w : World) : World :=
  mkWorld (heap w) (jobQueue w) (currentJob w) b (isPaused w)
          (contentListeners w) (reviewSection w) (timers w) (storage w)
          (applicationState w) (processTimeout w) (calls w).

Definition with_isPaused (b : bool) (w : World) : World :=
  mkWorld (heap w) (jobQueue w) (currentJob w) (isProcessing w) b
          (contentListeners w) (reviewSection w) (timers w) (storage w)
          (applicationState w) (processTimeout w) (calls w).

Definition with_contentListeners (n : nat) (w : World) : World :=
  mkWorld (heap w) (jobQueue w) (currentJob w) (isProcessing w) (isPaused w)
          n (reviewSection w) (timers w) (storage w)
          (applicationState w) (processTimeout w) (calls w).

Definition with_reviewSection (r : option addr) (w : World) : World :=
  mkWorld (heap w) (jobQueue w) (currentJob w) (isProcessing w) (isPaused w)
          (contentListeners w) r (timers w) (storage w)
          (applicationState w) (processTimeout w) (calls w).

Definition with_timers (t : list Timer) (w : World) : World :=
  mkWorld (heap w) (jobQueue w) (currentJob w) (isProcessing w) (isPaused w)
          (contentListeners w) (reviewSection w) t (storage w)
          (applicationState w) (processTimeout w) (calls w).

Definition with_storage (s : Storage) (w : World) : World :=
  mkWorld (heap w) (jobQueue w) (currentJob w) (isProcessing w) (isPaused w)
          (contentListeners w) (reviewSection w) (timers w) s
          (applicationState w) (processTimeout w) (calls w).

Definition with_applicationState (a : AppState) (w : World) : World :=
  mkWorld (heap w) (jobQueue w) (currentJob w) (isProcessing w) (isPaused w)
          (contentListeners w) (reviewSection w) (timers w) (storage w)
          a (processTimeout w) (calls w).

Definition with_processTimeout (n : nat) (w : World) : World :=
  mkWorld (heap w) (jobQueue w) (currentJob w) (isProcessing w) (isPaused w)
          (contentListeners w) (reviewSection w) (timers w) (storage w)
          (applicationState w) n (calls w).

Definition with_calls (c : list Call) (w : World) : World :=
  mkWorld (heap w) (jobQueue w) (currentJob w) (isProcessing w) (isPaused w)
          (contentListeners w) (reviewSection w) (timers w) (storage w)
          (applicationState w) (processTimeout w) c.

(** Small steps shared by the handlers. *)

(** [job.field = v] on the object at address [a]. *)
Definition mutate (a : addr) (f : Job → Job) (w : World) : World :=
  with_heap (alter f a (heap w)) w.

(** [setTimeout(cb, delay)]. *)
Definition setTimeout (t : Timer) (w : World) : World :=
  with_timers (timers w ++ [t]) w.

Definition call (c : Call) (w : World) : World :=
  with_calls (calls w ++ [c]) w.

(** The jobs of [this.jobQueue], by value and in order: what is written to
    storage or sent in a message. *)
Definition store (w : World) : list Job :=
  omap (λ a, heap w !! a) (jobQueue w).

(** [this.jobQueue.find(pred)]: the first queued object satisfying [pred]. *)
Fixpoint find_job (pred : Job → bool) (h : list Job) (q : list addr)
  : option addr :=
  match q with
  | [] => None
  | a :: q' =>
      match h !! a with
      | Some j => if pred j then Some a else find_job pred h q'
      | None => find_job pred h q'
      end
  end.

Definition is_pending (j : Job) : bool := bool_decide (status j = pending).
Definition has_id (jobId : string) (j : Job) : bool :=
  bool_decide (post_id j = jobId).

(** ** Results of the calls that leave the program *)

Inductive AiOutcome :=
  | AiFailed (message : string)   (* anything thrown inside the [try] *)
  | AiAnswer (score : option Z) (letter : option string).

Record Env := mkEnv {
  scrape_throws : option string;  (* [Some m]: scrapeJobDescription throws [m] *)
  description_script_throws : bool;
    (* the injection made by the timer of scrapeJobDescription is rejected *)
  analysis : AiOutcome;
  now : string                    (* new Date().toISOString() *)
}.

(** ** The background context ([background.js]) *)

(** [continueProcessing] of the background: arms one more notification. *)
Definition bg_continueProcessing (w : World) : World :=
  if negb (as_isProcessing (applicationState w))
     || negb (bool_decide (is_Some (as_currentJob (applicationState w))))
  then w
  else with_processTimeout (S (processTimeout w)) w.

(** The [UPDATE_APPLICATION_STATE] branch of the listener.  The message
    always carries the three fields, so the spread replaces all of them. *)
Definition bg_update (state : AppState) (w : World) : World :=
  let w1 := with_applicationState state w in
  let w2 := with_storage (st_set_applicationState state (storage w1)) w1 in
  if as_isProcessing (applicationState w2) then bg_continueProcessing w2
  else w2.

(** ** The popup ([class JobApplier]) *)

Definition saveJobQueue (w : World) : World :=
  with_storage (st_set_jobQueue (store w) (storage w)) w.

Definition updateBackgroundState (w : World) : World :=
  bg_update (mkAppState (isProcessing w)
                        (currentJob w ≫= (λ a, heap w !! a))
                        (store w)) w.

(** [scrapeJobDescription(job)] when its two awaited tab calls succeed: the
    tab is sent to the page of the job and the injection of the description
    script is left to a timer.  (When one of them throws, nothing was done
    yet: that is the [catch] of [processJobQueue].) *)
Definition scrapeJobDescription (job : addr) (w : World) : World :=
  setTimeout (TInjectDescription job 3000) (call (ScrapeDescription job) w).

(** The callback armed by [scrapeJobDescription].  It does not look at
    [isPaused], and nothing catches the rejection of its injection. *)
Definition injectDescriptionScript (env : Env) (job : addr) (w : World)
  : World :=
  if description_script_throws env then w
  else call (InjectDescription job) w.

Definition processJobQueue (env : Env) (w : World) : World :=
  if isPaused w then w
  else
    match find_job is_pending (heap w) (jobQueue w) with
    | None => with_isProcessing false w
    | Some nextJob =>
        let w1 := with_currentJob (Some nextJob) w in
        match scrape_throws env with
        | None => scrapeJobDescription nextJob w1
        | Some message =>
            let w2 := mutate nextJob (set_status skipped) w1 in
            let w3 := mutate nextJob (set_error (Some message)) w2 in
            let w4 := saveJobQueue w3 in
            setTimeout (TProcessJobQueue 1000) w4
        end
    end.

(** [this.jobQueue.push(...uniqueJobs)]: the received objects become new
    heap objects, referenced from the end of the queue. *)
Definition push_jobs (js : list Job) (w : World) : World :=
  let base := length (heap w) in
  with_jobQueue (jobQueue w ++ seq base (length js))
                (with_heap (heap w ++ js) w).

Definition handleScrapedJobs (env : Env) (newJobs : option (list Job))
    (w : World) : World :=
  match newJobs with
  | None | Some [] => with_isProcessing false w
  | Some newJobs =>
      let existingIds : gset string := list_to_set (post_id <$> store w) in
      let uniqueJobs := filter (λ job, post_id job ∉ existingIds) newJobs in
      if bool_decide (length uniqueJobs = 0) then with_isProcessing false w
      else
        let w1 := push_jobs uniqueJobs w in
        let w2 := saveJobQueue w1 in
        processJobQueue env w2
  end.

Definition showReviewSection (job : addr) (w : World) : World :=
  with_isProcessing false (with_reviewSection (Some job) w).

Definition hideReviewSection (w : World) : World :=
  with_reviewSection None w.

Definition analyzeJobWithAI (env : Env) (job : addr) (w : World) : World :=
  match analysis env with
  | AiAnswer score letter =>
      let w0 := call (Analyze job) w in
      let w1 := mutate job (set_matchScore score) w0 in
      let w2 := mutate job (set_coverLetter letter) w1 in
      let w3 := mutate job (set_status reviewing) w2 in
      let w4 := saveJobQueue w3 in
      showReviewSection job w4
  | AiFailed message =>
      let w0 := call (Analyze job) w in
      let w1 := mutate job (set_status skipped) w0 in
      let w2 :=
        mutate job
               (set_error (Some (String.append "AI analysis failed: " message)))
               w1 in
      let w3 := saveJobQueue w2 in
      setTimeout (TProcessJobQueue 1000) w3
  end.

Definition handleJobDescription (env : Env) (jobId : string)
    (description : option string) (error : option string) (w : World)
  : World :=
  if truthy error then
    match find_job (has_id jobId) (heap w) (jobQueue w) with
    | Some job =>
        let w1 := mutate job (set_status skipped) w in
        let w2 := mutate job (set_error error) w1 in
        let w3 := saveJobQueue w2 in
        setTimeout (TProcessJobQueue 1000) w3
    | None => w
    end
  else
    match find_job (has_id jobId) (heap w) (jobQueue w) with
    | Some job =>
        let w1 := mutate job (set_description description) w in
        let w2 := saveJobQueue w1 in
        analyzeJobWithAI env job w2
    | None => w
    end.

(** [submit_throws]: [Some m] when [submitApplication] throws [m]. *)
Definition confirmApplication (submit_throws : option string) (w : World)
  : World :=
  match currentJob w with
  | None => w
  | Some cur =>
      let w1 := hideReviewSection w in
      let w2 := mutate cur (set_status applying) w1 in
      let w3 := saveJobQueue w2 in
      let w4 :=
        match submit_throws with
        | None => call (Submit cur) w3
        | Some message =>
            let v1 := mutate cur (set_status skipped) w3 in
            let v2 := mutate cur (set_error (Some message)) v1 in
            saveJobQueue v2
        end in
      let w5 := with_isProcessing true w4 in
      setTimeout (TProcessJobQueue 2000) w5
  end.

Definition declineApplication (w : World) : World :=
  match currentJob w with
  | None => w
  | Some cur =>
      let w1 := hideReviewSection w in
      let w2 := mutate cur (set_status skipped) w1 in
      let w3 := saveJobQueue w2 in
      let w4 := with_isProcessing true w3 in
      setTimeout (TProcessJobQueue 1000) w4
  end.

Definition handleApplicationSubmitted (env : Env) (jobId : string)
    (success : bool) (error : option string) (w : World) : World :=
  match find_job (has_id jobId) (heap w) (jobQueue w) with
  | None => w
  | Some job =>
      let w1 :=
        if success then
          mutate job (set_appliedDate (Some (now env)))
                 (mutate job (set_status applied) w)
        else
          mutate job
                 (set_error (if truthy error then error
                             else Some "Application submission failed"))
                 (mutate job (set_status skipped) w) in
      saveJobQueue w1
  end.

(** [tab_on_site]: the active tab is on the site; [inject_throws]:
    [injectJobScrapingScript] throws, which happens before it adds its
    listener. *)
Definition startApplication (tab_on_site : bool) (inject_throws : bool)
    (w : World) : World :=
  if negb (truthy (st_keywords (storage w)))
     || negb (truthy (st_criteria (storage w)))
     || negb (truthy (st_cv (storage w)))
     || negb (truthy (st_llmToken (storage w)))
  then w
  else if negb tab_on_site then w
  else
    let w1 := with_isPaused false (with_isProcessing true w) in
    let w2 := updateBackgroundState w1 in
    if inject_throws then
      updateBackgroundState (with_isProcessing false w2)
    else
      with_contentListeners (S (contentListeners w2))
        (call (InjectScraping (default "" (st_keywords (storage w)))) w2).

Definition pauseApplication (w : World) : World :=
  updateBackgroundState (with_isProcessing false (with_isPaused true w)).

(** An index outside the queue makes [job.jobTitle] throw: nothing is
    changed. *)
Definition processSpecificJob (env : Env) (index : nat) (w : World) : World :=
  match jobQueue w !! index with
  | None => w
  | Some job =>
      match heap w !! job with
      | None => w
      | Some j =>
          if negb (is_pending j) then w
          else
            let w1 := with_isProcessing true (with_currentJob (Some job) w) in
            let w2 := updateBackgroundState w1 in
            processJobQueue env w2
      end
  end.

Definition toggleJobStar (index : nat) (w : World) : World :=
  match jobQueue w !! index with
  | None => w
  | Some job => saveJobQueue (mutate job (λ j, set_starred (negb (starred j)) j) w)
  end.

(** [confirmed]: the answer to the confirmation dialog. *)
Definition clearAllData (confirmed : bool) (w : World) : World :=
  if confirmed then with_jobQueue [] (with_storage empty_storage w)
  else w.

Definition continueProcessing (env : Env) (w : World) : World :=
  if negb (isProcessing w) || negb (bool_decide (is_Some (currentJob w)))
  then w
  else processJobQueue env w.

(** The job of the response is a copy: it is a new object, not one of the
    queue. *)
Definition restoreApplicationState (w : World) : World :=
  let state := applicationState w in
  let w1 := with_isProcessing (as_isProcessing state) w in
  let w2 :=
    match as_currentJob state with
    | Some j => with_currentJob (Some (length (heap w1)))
                                (with_heap (heap w1 ++ [j]) w1)
    | None => with_currentJob None w1
    end in
  if isProcessing w2 && bool_decide (is_Some (currentJob w2))
  then setTimeout (TContinueProcessing 1000) w2
  else w2.

Definition loadJobQueue (w : World) : World :=
  let js := default [] (st_jobQueue (storage w)) in
  with_jobQueue (seq 0 (length js)) (with_heap js w).

(** A popup is opened: [new JobApplier()] then [init()].  The previous
    instance, with its objects, listeners and timers, is gone. *)
Definition attach (w : World) : World :=
  let fresh :=
    mkWorld [] [] None false false 0 None [] (storage w)
            (applicationState w) (processTimeout w) (calls w) in
  restoreApplicationState (loadJobQueue fresh).

(** ** Messages, timers and events *)

Inductive Message :=
  | JOBS_SCRAPED (jobs : option (list Job))
  | JOB_DESCRIPTION_SCRAPED (jobId : string) (description : option string)
                            (error : option string)
  | APPLICATION_SUBMITTED (jobId : string) (success : bool)
                          (error : option string)
  | CONTINUE_PROCESSING (job : option Job).

(** The listener added by [injectJobScrapingScript].  It calls the two
    result handlers with two arguments: their third parameter, [error], is
    [undefined] whatever the message carries. *)
Definition contentListener (env : Env) (message : Message) (w : World)
  : World :=
  match message with
  | JOBS_SCRAPED jobs => handleScrapedJobs env jobs w
  | JOB_DESCRIPTION_SCRAPED jobId description _ =>
      handleJobDescription env jobId description None w
  | APPLICATION_SUBMITTED jobId success _ =>
      handleApplicationSubmitted env jobId success None w
  | CONTINUE_PROCESSING _ => w
  end.

(** The listener added by [setupBackgroundMessageListener]. *)
Definition backgroundMessageListener (env : Env) (message : Message)
    (w : World) : World :=
  match message with
  | CONTINUE_PROCESSING (Some job) =>
      let w1 := with_currentJob (Some (length (heap w)))
                                (with_heap (heap w ++ [job]) w) in
      continueProcessing env (with_isProcessing true w1)
  | _ => w
  end.

(** A message reaches every listener of the popup, in the order in which
    they were added. *)
Definition onMessage (env : Env) (message : Message) (w : World) : World :=
  Nat.iter (contentListeners w) (contentListener env message)
           (backgroundMessageListener env message w).

(** The callback armed by the background's [continueProcessing] runs. *)
Definition bg_notify (env : Env) (w : World) : World :=
  match processTimeout w with
  | 0 => w
  | S n =>
      onMessage env
                (CONTINUE_PROCESSING (as_currentJob (applicationState w)))
                (with_processTimeout n w)
  end.

(** The [i]-th pending callback of the popup runs. *)
Definition fire (env : Env) (i : nat) (w : World) : World :=
  match timers w !! i with
  | None => w
  | Some t =>
      let w1 := with_timers (delete i (timers w)) w in
      match t with
      | TProcessJobQueue _ => processJobQueue env w1
      | TContinueProcessing _ => continueProcessing env w1
      | TInjectDescription job _ => injectDescriptionScript env job w1
      end
  end.

Inductive Event :=
  | Start (tab_on_site inject_throws : bool)
  | Pause
  | ClearAll (confirmed : bool)
  | Approve (submit_throws : option string)
  | Decline
  | ProcessSpecific (index : nat)
  | ToggleStar (index : nat)
  | Receive (message : Message)
  | Fire (i : nat)
  | Notify
  | Attach.

Definition step (env : Env) (e : Event) (w : World) : World :=
  match e with
  | Start tab_on_site inject_throws =>
      startApplication tab_on_site inject_throws w
  | Pause => pauseApplication w
  | ClearAll confirmed => clearAllData confirmed w
  | Approve submit_throws => confirmApplication submit_throws w
  | Decline => declineApplication w
  | ProcessSpecific index => processSpecificJob env index w
  | ToggleStar index => toggleJobStar index w
  | Receive message => onMessage env message w
  | Fire i => fire env i w
  | Notify => bg_notify env w
  | Attach => attach w
  end.

Definition run (env : Env) (trace : list Event) (w : World) : World :=
  foldl (λ w e, step env e w) w trace.

(** The background starts from its literal state, overridden by what was
    persisted, and a popup is opened. *)
Definition boot (s : Storage) : World :=
  attach (mkWorld [] [] None false false 0 None [] s
                  (default (mkAppState false None []) (st_applicationState s))
                  0 []).

Inductive reachable (s : Storage) : World → Prop :=
  | reachable_boot : reachable s (boot s)
  | reachable_step env e w :
      reachable s w → reachable s (step env e w).

(** ** What the specification calls the store and the in-flight job *)

Definition ids (w : World) : list string := post_id <$> store w.

(** Queue references are live and distinct; so are the current job and the
    job of the review section. *)
Record wf (w : World) : Prop := mkWf {
  wf_queue : Forall (λ a, a < length (heap w)) (jobQueue w);
  wf_nodup : NoDup (jobQueue w);
  wf_current : ∀ a, currentJob w = Some a → a < length (heap w);
  wf_review : ∀ a, reviewSection w = Some a → a < length (heap w)
}.

(** The persisted job collection is the queue. *)
Definition synced (w : World) : Prop :=
  default [] (st_jobQueue (storage w)) = store w.

(** The queued jobs designated by [currentJob]. *)
Definition in_flight (w : World) : list addr :=
  filter (λ a, currentJob w = Some a) (jobQueue w).

(** ** Invariant and progress relation *)

Definition inv (w : World) : Prop := wf w ∧ synced w.

(** [good w w']: going from [w] to [w'] keeps the invariant and deletes no
    job: the ids of the store of [w] are the first ids of the store of
    [w']. *)
Definition good (w w' : World) : Prop :=
  inv w → inv w' ∧ ids w `prefix_of` ids w'.

(** ** Sample data and sample runs *)

Definition sample_job (id : string) (st : Status) : Job :=
  set_status st
             (scraped id "title" "company" "https://site/jobs/view/1" "date").

(** A popup whose queue holds the jobs [h], in this order. *)
Definition sample_world (h : list Job) : World :=
  mkWorld h (seq 0 (length h)) None true false 1 None [] empty_storage
          (mkAppState false None []) 0 [].

(** Nothing throws and the analysis answers. *)
Definition quiet : Env :=
  mkEnv None false (AiAnswer (Some 82%Z) (Some "letter")) "now".

Definition settings : Storage :=
  mkStorage (Some "backend engineer") (Some "remote") (Some "ten years of Rust")
            (Some "token") None None.

Definition jobA : Job :=
  scraped "4001" "Backend Engineer" "Acme"
          "https://www.linkedin.com/jobs/view/4001" "2025-01-01T00:00:00.000Z".

Definition jobB : Job :=
  scraped "4002" "Platform Engineer" "Globex"
          "https://www.linkedin.com/jobs/view/4002" "2025-01-01T00:00:00.000Z".

(** A second card of the listing page for the job of [jobA]: same id. *)
Definition jobA_again : Job :=
  scraped "4001" "Backend Engineer" "Acme"
          "https://www.linkedin.com/jobs/view/4001?refId=x"
          "2025-01-01T00:00:00.000Z".

(** The user starts the pipeline and the listing script reports two jobs:
    the first one is selected and its description is requested (the tab is
    sent to its page and, three seconds later, the description script is
    injected). *)
Definition discovered : World :=
  run quiet
      [Start true false; Receive (JOBS_SCRAPED (Some [jobA; jobB])); Fire 0]
      (boot settings).

(** The same run before the timer of the injection fires. *)
Definition selected : World :=
  run quiet [Start true false; Receive (JOBS_SCRAPED (Some [jobA; jobB]))]
      (boot settings).

(** Its description arrives and the analysis answers: it is under review. *)
Definition under_review : World :=
  step quiet
       (Receive (JOB_DESCRIPTION_SCRAPED "4001" (Some "We build things") None))
       discovered.


(** ** The rest of the popup: settings, statistics, logging *)

(** The values of the four fields of the settings form. *)
Record Settings := mkSettings {
  keywords : string;
  criteria : string;
  cv : string;
  llmToken : string
}.

(** [saveSettings]: the four fields are written under their keys; the other
    keys are not touched.  (The status line and the tab switch armed one
    second later are display only.) *)
Definition saveSettings (form : Settings) (w : World) : World :=
  with_storage
    (mkStorage (Some (keywords form)) (Some (criteria form)) (Some (cv form))
               (Some (llmToken form)) (st_jobQueue (storage w))
               (st_applicationState (storage w)))
    w.

(** [loadUserData]: a field of the form is overwritten only by a truthy
    stored value. *)
Definition loadUserData (form : Settings) (w : World) : Settings :=
  let pick (stored : option string) (shown : string) :=
    if truthy stored then default "" stored else shown in
  mkSettings (pick (st_keywords (storage w)) (keywords form))
             (pick (st_criteria (storage w)) (criteria form))
             (pick (st_cv (storage w)) (cv form))
             (pick (st_llmToken (storage w)) (llmToken form)).

(** The form of a popup that was just opened. *)
Definition blank_form : Settings := mkSettings "" "" "" "".

Definition Status_to_nat (st : Status) : nat :=
  match st with
  | pending => 0 | reviewing => 1 | applying => 2 | applied => 3 | skipped => 4
  end.

Definition Status_of_nat (n : nat) : Status :=
  match n with
  | 0 => pending | 1 => reviewing | 2 => applying | 3 => applied | _ => skipped
  end.

#[global] Instance Status_countable : Countable Status.
Proof.
  refine (inj_countable' Status_to_nat Status_of_nat _). by intros [].
Defined.

(** The object built by the [reduce] of [updateStats]: a counter per status
    met in the queue. *)
Definition count_statuses (q : list Job) : gmap Status nat :=
  foldl (λ acc job, <[status job := default 0 (acc !! status job) + 1]> acc)
        ∅ q.

(** The four counters of the summary tab. *)
Record Stats := mkStats {
  pending_count : nat;
  applied_count : nat;
  skipped_count : nat;
  reviewing_count : nat
}.

Definition updateStats (w : World) : Stats :=
  let stats := count_statuses (store w) in
  mkStats (default 0 (stats !! pending)) (default 0 (stats !! applied))
          (default 0 (stats !! skipped)) (default 0 (stats !! reviewing)).

(** [class Logger], with the [debug_logs] key of the storage it writes. *)
Module Logger.
Record entry := mkEntry {
  timestamp : string;
  level : string;
  message : string;
  data : option string
}.

Record t := mk {
  logs : list entry;
  maxLogs : nat;
  debug_logs : option (list entry)   (* the storage key *)
}.

(** [new Logger()], the key being what an earlier popup left. *)
Definition create (stored : option (list entry)) : t := mk [] 1000 stored.

(** [l.slice(-n)]. *)
Definition slice_last (n : nat) (l : list entry) : list entry :=
  drop (length l - n) l.

Definition log (e : entry) (lg : t) : t :=
  let pushed := logs lg ++ [e] in
  let kept := if decide (maxLogs lg < length pushed) then tail pushed
              else pushed in
  mk kept (maxLogs lg) (Some (slice_last 100 kept)).

Definition getLogs (lg : t) : list entry := logs lg.

Definition clearLogs (lg : t) : t := mk [] (maxLogs lg) None.

(** The entries [es] are logged in this order. *)
Definition log_all (es : list entry) (lg : t) : t :=
  foldl (λ lg e, log e lg) lg es.
End Logger.

(** ** Notions used to state what the handlers keep *)

(** The state sent by [updateBackgroundState]. *)
Definition sent_state (w : World) : AppState :=
  mkAppState (isProcessing w) (currentJob w ≫= λ a, heap w !! a) (store w).

(** What may happen to a job object over time: the fields written by the
    page script stay, and a status that is not [pending] does not become
    [pending]. *)
Definition job_step (j j' : Job) : Prop :=
  post_id j' = post_id j ∧ jobTitle j' = jobTitle j ∧
  company j' = company j ∧ url j' = url j ∧ dateFound j' = dateFound j ∧
  (status j' = pending → status j = pending).

Definition heap_step (h h' : list Job) : Prop :=
  ∀ a j, h !! a = Some j → ∃ j', h' !! a = Some j' ∧ job_step j j'.

(** [stays w w']: the queue is the same array and its objects only made
    allowed steps; [evolves w w']: the queue may also have grown at its
    end. *)
Definition stays (w w' : World) : Prop :=
  jobQueue w' = jobQueue w ∧ heap_step (heap w) (heap w').


(** The jobs whose description was requested, oldest first: the calls of
    [scrapeJobDescription] that went through. *)
Definition scrapes (w : World) : list addr :=
  omap (λ c, match c with ScrapeDescription a => Some a | _ => None end)
       (calls w).

(** The jobs for which the description script was injected, and the jobs
    for which its injection is still to come. *)
Definition injections (w : World) : list addr :=
  omap (λ c, match c with InjectDescription a => Some a | _ => None end)
       (calls w).

Definition injections_to_come (w : World) : list addr :=
  omap (λ t, match t with TInjectDescription a _ => Some a | _ => None end)
       (timers w).

(** The jobs whose application was submitted, oldest first. *)
Definition submits (w : World) : list addr :=
  omap (λ c, match c with Submit a => Some a | _ => None end) (calls w).

(** [held w w']: if [w] is paused then so is [w'], and in between
    [scrapeJobDescription] was called for no job, no description script was
    injected and none was scheduled. *)
Definition held (w w' : World) : Prop :=
  isPaused w = true →
  isPaused w' = true ∧ scrapes w' = scrapes w ∧
  injections w' = injections w ∧
  injections_to_come w' = injections_to_come w.

(** A discovery batch that does not hold an id twice. *)
Definition clean_event (e : Event) : Prop :=
  match e with
  | Receive (JOBS_SCRAPED (Some js)) => NoDup (post_id <$> js)
  | _ => True
  end.

(** The ids that a discovery result adds to a store. *)
Definition fresh_ids (newJobs : option (list Job)) (w : World) : list string :=
  match newJobs with
  | Some js =>
      post_id <$>
        filter (λ job, post_id job ∉ (list_to_set (ids w) : gset string)) js
  | None => []
  end.

Definition pending_count_of (w : World) : nat :=
  length (filter (λ j, status j = pending) (store w)).

(** The timer that was armed last runs. *)
Definition fire_last (env : Env) (w : World) : World :=
  fire env (length (timers w) - 1) w.

(** What a failed job looks like. *)
Definition failed (message : string) (j : Job) : Job :=
  set_error (Some message) (set_status skipped j).

(** The first pending job of a list fails; all of them do. *)
Fixpoint fail_first (message : string) (l : list Job) : list Job :=
  match l with
  | [] => []
  | j :: l' =>
      if is_pending j then failed message j :: l'
      else j :: fail_first message l'
  end.

Definition fail_all (message : string) (l : list Job) : list Job :=
  (λ j, if is_pending j then failed message j else j) <$> l.

(** Every navigation throws and every analysis fails. *)
Definition flaky : Env :=
  mkEnv (Some "No tab with id") false (AiFailed "request failed") "now".

Definition complete (form : Settings) : Prop :=
  keywords form ≠ "" ∧ criteria form ≠ "" ∧ cv form ≠ "" ∧ llmToken form ≠ "".

(** * Properties *)

(** ** Searching the queue *)

Section FindJob.
Variable pred : Job → bool.
Variable h : list Job.

Lemma find_job_None (q : list addr) :
  find_job pred h q = None ↔
  ∀ a j, a ∈ q → h !! a = Some j → pred j = false.
Proof.
  induction q as [|a q IH]; simpl.
  - split; [intros _ a j Ha; by apply elem_of_nil in Ha | done].
  - destruct (h !! a) as [j|] eqn:Hj.
    + destruct (pred j) eqn:Hp.
      * split; [done|]. intros H.
        specialize (H a j (list_elem_of_here _ _) Hj). congruence.
      * rewrite IH. split.
        -- intros H b jb Hb Hjb. apply elem_of_cons in Hb as [->|Hb].
           ++ congruence.
           ++ eauto.
        -- intros H b jb Hb. apply H. by apply list_elem_of_further.
    + rewrite IH. split.
      * intros H b jb Hb Hjb. apply elem_of_cons in Hb as [->|Hb].
        -- congruence.
        -- eauto.
      * intros H b jb Hb. apply H. by apply list_elem_of_further.
Qed.

(** [find_job] returns the reference at the least position whose object
    satisfies the predicate. *)
Lemma find_job_first (q : list addr) (i : nat) (a : addr) (j : Job) :
  q !! i = Some a → h !! a = Some j → pred j = true →
  (∀ i' a' j', i' < i → q !! i' = Some a' → h !! a' = Some j' →
               pred j' = false) →
  find_job pred h q = Some a.
Proof.
  revert i. induction q as [|b q IH]; intros i Hi Hj Hp Hbefore.
  - by rewrite lookup_nil in Hi.
  - destruct i as [|i]; simpl in *.
    + simplify_eq. by rewrite Hj, Hp.
    + assert (Hrest : find_job pred h q = Some a).
      { apply (IH i); try done.
        intros i' a' j' Hlt. apply (Hbefore (S i')). lia. }
      destruct (h !! b) as [jb|] eqn:Hb; [|done].
      by rewrite (Hbefore 0 b jb ltac:(lia) eq_refl Hb).
Qed.

Lemma find_job_Some (q : list addr) (a : addr) :
  find_job pred h q = Some a →
  ∃ i j, q !! i = Some a ∧ h !! a = Some j ∧ pred j = true ∧
         ∀ i' a' j', i' < i → q !! i' = Some a' → h !! a' = Some j' →
                     pred j' = false.
Proof.
  induction q as [|b q IH]; simpl; [done|].
  destruct (h !! b) as [jb|] eqn:Hb.
  - destruct (pred jb) eqn:Hp.
    + intros [= ->]. exists 0, jb. repeat split; try done. lia.
    + intros (i & j & Hi & Hj & Hpj & Hbefore)%IH.
      exists (S i), j. repeat split; try done.
      intros [|i'] a' j' Hlt Ha' Hj'; simpl in Ha'.
      * congruence.
      * apply (Hbefore i' a' j'); [lia|done..].
  - intros (i & j & Hi & Hj & Hpj & Hbefore)%IH.
    exists (S i), j. repeat split; try done.
    intros [|i'] a' j' Hlt Ha' Hj'; simpl in Ha'.
    + congruence.
    + apply (Hbefore i' a' j'); [lia|done..].
Qed.

Lemma find_job_elem_of (q : list addr) (a : addr) :
  find_job pred h q = Some a → a ∈ q.
Proof.
  intros (i & j & Hi & _)%find_job_Some. by eapply list_elem_of_lookup_2.
Qed.
End FindJob.

Lemma is_pending_true (j : Job) : is_pending j = true ↔ status j = pending.
Proof. unfold is_pending. by rewrite bool_decide_eq_true. Qed.

Lemma is_pending_false (j : Job) : is_pending j = false ↔ status j ≠ pending.
Proof. unfold is_pending. by rewrite bool_decide_eq_false. Qed.

(** ** The scheduling loop (C7) *)

(** C7.  One run of [processJobQueue] that is not paused selects the first
    job of the queue, in insertion order, whose status is pending: it becomes
    the current job and, unless the navigation throws, its description is
    requested.  When no queued job is pending, the run only sets
    [isProcessing] to false: the jobs, the storage, the timers and the calls
    are as before. *)
Theorem processJobQueue_next_pending (env : Env) (w : World) :
  isPaused w = false →
  let w' := processJobQueue env w in
  (∀ i a j,
      jobQueue w !! i = Some a → heap w !! a = Some j → status j = pending →
      (∀ i' a' j', i' < i → jobQueue w !! i' = Some a' →
                   heap w !! a' = Some j' → status j' ≠ pending) →
      currentJob w' = Some a ∧
      (scrape_throws env = None →
       calls w' = calls w ++ [ScrapeDescription a] ∧ heap w' = heap w)) ∧
  ((∀ a j, a ∈ jobQueue w → heap w !! a = Some j → status j ≠ pending) →
   w' = with_isProcessing false w ∧
   isProcessing w' = false ∧ store w' = store w ∧
   jobQueue w' = jobQueue w ∧ storage w' = storage w ∧
   timers w' = timers w ∧ calls w' = calls w).
Proof.
  intros Hp w'. subst w'. unfold processJobQueue. rewrite Hp. split.
  - intros i a j Hi Hj Hst Hbefore.
    rewrite (find_job_first is_pending (heap w) (jobQueue w) i a j); try done.
    + destruct (scrape_throws env); simpl; [split; [done|done]|done].
    + by apply is_pending_true.
    + intros i' a' j' Hlt Ha' Hj'. apply is_pending_false. eauto.
  - intros Hnone.
    assert (find_job is_pending (heap w) (jobQueue w) = None) as ->.
    { apply find_job_None. intros a j Ha Hj. apply is_pending_false. eauto. }
    done.
Qed.

Lemma processJobQueue_next_pending_witness :
  currentJob
    (processJobQueue quiet
       (sample_world [sample_job "A" skipped; sample_job "B" pending;
                      sample_job "C" pending])) = Some 1.
Proof.
  pose proof (processJobQueue_next_pending quiet
    (sample_world [sample_job "A" skipped; sample_job "B" pending;
                   sample_job "C" pending]) eq_refl) as [Hsel _].
  refine (proj1 (Hsel 1 1 (sample_job "B" pending) eq_refl eq_refl eq_refl _)).
  intros [|i'] a' j' Hlt Ha' Hj'; [|lia].
  simpl in Ha'. injection Ha' as <-. simpl in Hj'. injection Hj' as <-.
  discriminate.
Defined.

(** ** Discovery results that bring nothing new (C10) *)

Lemma filter_known_ids (known : list string) (js : list Job) :
  (∀ job, job ∈ js → post_id job ∈ known) →
  filter (λ job, post_id job ∉ (list_to_set known : gset string)) js = [].
Proof.
  intros H. induction js as [|j js IH]; [done|].
  rewrite filter_cons_False.
  - apply IH. intros job Hjob. apply H. by apply list_elem_of_further.
  - intros Hn. apply Hn. apply elem_of_list_to_set. apply H. left.
Qed.

(** C10.  When the discovery result is missing, empty, or made only of ids
    that the store already has, [handleScrapedJobs] sets [isProcessing] to
    false and returns: it does not call [processJobQueue], so no description
    is requested, no timer is armed, and the jobs, the current job and the
    storage are as before, pending jobs included. *)
Theorem handleScrapedJobs_nothing_new (env : Env) (newJobs : option (list Job))
    (w : World) :
  (∀ js job, newJobs = Some js → job ∈ js → post_id job ∈ ids w) →
  let w' := handleScrapedJobs env newJobs w in
  w' = with_isProcessing false w ∧
  isProcessing w' = false ∧ heap w' = heap w ∧ jobQueue w' = jobQueue w ∧
  store w' = store w ∧ storage w' = storage w ∧
  currentJob w' = currentJob w ∧ timers w' = timers w ∧ calls w' = calls w.
Proof.
  intros Hknown w'.
  assert (w' = with_isProcessing false w) as ->; [|done].
  subst w'. unfold handleScrapedJobs.
  destruct newJobs as [[|j js]|]; try done.
  fold (ids w). rewrite (filter_known_ids (ids w) (j :: js)); [done|].
  intros job Hjob. by apply (Hknown (j :: js)).
Qed.

Lemma handleScrapedJobs_nothing_new_witness :
  let w := sample_world [sample_job "A" pending; sample_job "B" reviewing] in
  let w' := handleScrapedJobs quiet
              (Some [sample_job "B" pending; sample_job "A" pending]) w in
  isProcessing w' = false ∧ store w' = store w ∧ calls w' = calls w.
Proof.
  intros w w'.
  assert (Hknown : ∀ js job,
             Some [sample_job "B" pending; sample_job "A" pending] = Some js →
             job ∈ js → post_id job ∈ ids w).
  { intros js job [= <-] Hjob. vm_compute.
    apply elem_of_cons in Hjob as [->|Hjob]; [right; left|].
    apply elem_of_cons in Hjob as [->|Hjob]; [left|].
    by apply elem_of_nil in Hjob. }
  destruct (handleScrapedJobs_nothing_new quiet _ w Hknown)
    as (_ & H1 & _ & _ & H2 & _ & _ & _ & H3).
  done.
Defined.

(** ** Invariants of the reachable states *)

(** *** The ids of the store depend on the ids of the heap only *)

Lemma ids_heap (w : World) :
  ids w = omap (λ a, (post_id <$> heap w) !! a) (jobQueue w).
Proof.
  unfold ids, store. rewrite list_fmap_omap.
  induction (jobQueue w) as [|a q IH]; [done|].
  csimpl. by rewrite list_lookup_fmap, IH.
Qed.

Lemma heap_ids_alter (f : Job → Job) (a : addr) (h : list Job) :
  (∀ j, post_id (f j) = post_id j) →
  post_id <$> alter f a h = post_id <$> h.
Proof.
  intros Hf. revert a. induction h as [|j h IH]; intros [|a]; csimpl; try done.
  - by rewrite Hf.
  - f_equal. apply IH.
Qed.

Lemma ids_same (w w' : World) :
  jobQueue w' = jobQueue w →
  post_id <$> heap w' = post_id <$> heap w →
  ids w' = ids w.
Proof. intros Hq Hh. by rewrite !ids_heap, Hq, Hh. Qed.

(** Allocating at the end of the heap does not change what live references
    point to. *)
Lemma omap_lookup_app (h extra : list Job) (q : list addr) :
  Forall (λ a, a < length h) q →
  omap (λ a, (h ++ extra) !! a) q = omap (λ a, h !! a) q.
Proof.
  induction 1 as [|a q Ha _ IH]; csimpl; [done|].
  rewrite lookup_app_l by done. by rewrite IH.
Qed.

Lemma omap_lookup_seq (h : list Job) (js : list Job) :
  omap (λ a, (h ++ js) !! a) (seq (length h) (length js)) = js.
Proof.
  revert h. induction js as [|j js IH]; intros h; csimpl; [done|].
  rewrite lookup_app_r, Nat.sub_diag by lia. csimpl. f_equal.
  specialize (IH (h ++ [j])). rewrite length_app in IH. simpl in IH.
  rewrite Nat.add_1_r in IH. by rewrite <- (assoc_L (++)) in IH.
Qed.

Lemma store_push (js : list Job) (w : World) :
  wf w → store (push_jobs js w) = store w ++ js.
Proof.
  intros Hwf. unfold store, push_jobs. simpl.
  rewrite omap_app, omap_lookup_app by apply Hwf.
  by rewrite omap_lookup_seq.
Qed.

Lemma store_with_heap_app (extra : list Job) (w w' : World) :
  wf w → heap w' = heap w ++ extra → jobQueue w' = jobQueue w →
  store w' = store w.
Proof.
  intros Hwf Hh Hq. unfold store. rewrite Hh, Hq.
  apply omap_lookup_app, Hwf.
Qed.

(** *** Well-formedness *)

Lemma wf_same (w w' : World) :
  wf w →
  length (heap w') = length (heap w) →
  jobQueue w' = jobQueue w →
  (∀ a, currentJob w' = Some a → a < length (heap w)) →
  (∀ a, reviewSection w' = Some a → a < length (heap w)) →
  wf w'.
Proof.
  intros [Hq Hn Hc Hr] Hlen Hqueue Hcur Hrev.
  split; rewrite ?Hlen, ?Hqueue; done.
Qed.

Lemma wf_alloc (j : Job) (w w' : World) :
  wf w →
  heap w' = heap w ++ [j] →
  jobQueue w' = jobQueue w →
  (∀ a, currentJob w' = Some a → (a ≤ length (heap w))%nat) →
  reviewSection w' = reviewSection w →
  wf w'.
Proof.
  intros [Hq Hn Hc Hr] Hh Hqueue Hcur Hrev.
  split; rewrite ?Hh, ?Hqueue, ?Hrev, ?length_app; simpl.
  - eapply Forall_impl; [done|]. simpl. lia.
  - done.
  - intros a Ha. apply Hcur in Ha. lia.
  - intros a Ha. apply Hr in Ha. lia.
Qed.

Lemma wf_push (js : list Job) (w : World) : wf w → wf (push_jobs js w).
Proof.
  intros [Hq Hn Hc Hr]. split; unfold push_jobs; simpl; rewrite ?length_app.
  - apply Forall_app. split.
    + eapply Forall_impl; [done|]. simpl. lia.
    + apply Forall_forall. intros a Ha%elem_of_seq. lia.
  - apply NoDup_app. split_and!; [done| |apply NoDup_seq].
    intros a Ha Hs%elem_of_seq.
    rewrite Forall_forall in Hq. apply Hq in Ha. lia.
  - intros a Ha. apply Hc in Ha. lia.
  - intros a Ha. apply Hr in Ha. lia.
Qed.

Lemma wf_find_job (pred : Job → bool) (w : World) (a : addr) :
  wf w → find_job pred (heap w) (jobQueue w) = Some a → a < length (heap w).
Proof.
  intros Hwf Ha%find_job_elem_of.
  pose proof (wf_queue w Hwf) as Hq. rewrite Forall_forall in Hq. auto.
Qed.

(** At most one queued job is designated by [currentJob]. *)
Lemma in_flight_at_most_one (w : World) :
  wf w → (length (in_flight w) ≤ 1)%nat.
Proof.
  intros Hwf. unfold in_flight. pose proof (wf_nodup w Hwf) as Hn.
  generalize (currentJob w). intros c.
  induction Hn as [|a q Hnotin Hn IH]; [simpl; lia|].
  rewrite filter_cons. case_decide as Heq; [|done].
  subst c. simpl.
  assert (filter (λ x, Some a = Some x) q = []) as ->; [|simpl; lia].
  clear IH Hn. induction q as [|x q IHq]; [done|].
  rewrite filter_cons_False.
  - apply IHq. intros Hq. apply Hnotin. by right.
  - intros [= ->]. apply Hnotin. left.
Qed.

(** *** What every handler keeps *)

Lemma good_refl (w : World) : good w w.
Proof. by intros Hi. Qed.

Lemma good_trans (w1 w2 w3 : World) : good w1 w2 → good w2 w3 → good w1 w3.
Proof.
  intros H12 H23 Hi. destruct (H12 Hi) as [Hi2 Hp2].
  destruct (H23 Hi2) as [Hi3 Hp3]. split; [done|]. by etrans.
Qed.

(** The common case: the queue is the same array, the objects keep their
    ids, and the persisted collection is again the queue. *)
Lemma keep (w w' : World) :
  inv w →
  post_id <$> heap w' = post_id <$> heap w →
  jobQueue w' = jobQueue w →
  (∀ a, currentJob w' = Some a → a < length (heap w)) →
  (∀ a, reviewSection w' = Some a → a < length (heap w)) →
  default [] (st_jobQueue (storage w')) = store w' →
  inv w' ∧ ids w `prefix_of` ids w'.
Proof.
  intros [Hwf Hs] Hh Hq Hc Hr Hst. unfold inv. split_and!.
  - apply (wf_same w); try done.
    by rewrite <- (length_fmap post_id (heap w')), Hh, length_fmap.
  - done.
  - by rewrite (ids_same w w').
Qed.

(** A received job is allocated; the queue is untouched. *)
Lemma keep_alloc (j : Job) (w w' : World) :
  inv w →
  heap w' = heap w ++ [j] →
  jobQueue w' = jobQueue w →
  (∀ a, currentJob w' = Some a → (a ≤ length (heap w))%nat) →
  reviewSection w' = reviewSection w →
  storage w' = storage w →
  inv w' ∧ ids w `prefix_of` ids w'.
Proof.
  intros [Hwf Hs] Hh Hq Hc Hr Hst.
  assert (Hstore : store w' = store w) by by apply (store_with_heap_app [j]).
  unfold inv. split_and!.
  - by apply (wf_alloc j w).
  - unfold synced. by rewrite Hst, Hstore.
  - unfold ids. by rewrite Hstore.
Qed.

Ltac keep_ids :=
  simpl; rewrite ?heap_ids_alter by (intros []; done); try done.

Ltac keeper :=
  match goal with
  | Hi : inv ?w |- _ =>
      apply (keep w); [exact Hi|keep_ids..];
      try (by apply Hi);
      try (intros ? [= <-];
           first [ assumption
                 | eapply wf_find_job; [apply Hi|eassumption]
                 | by apply Hi ])
  end.

Lemma updateBackgroundState_popup (w : World) :
  let w' := updateBackgroundState w in
  heap w' = heap w ∧ jobQueue w' = jobQueue w ∧
  currentJob w' = currentJob w ∧ reviewSection w' = reviewSection w ∧
  isProcessing w' = isProcessing w ∧ isPaused w' = isPaused w ∧
  timers w' = timers w ∧ calls w' = calls w ∧
  contentListeners w' = contentListeners w ∧
  st_jobQueue (storage w') = st_jobQueue (storage w).
Proof.
  unfold updateBackgroundState, bg_update, bg_continueProcessing. simpl.
  destruct (isProcessing w) eqn:Hp; simpl; [|by rewrite Hp].
  destruct (bool_decide _); simpl; by rewrite Hp.
Qed.

Lemma updateBackgroundState_currentJob (w : World) :
  currentJob (updateBackgroundState w) = currentJob w.
Proof. apply updateBackgroundState_popup. Qed.

(** ** What [updateBackgroundState] touches *)

Lemma ubs_heap (w : World) : heap (updateBackgroundState w) = heap w.
Proof. apply updateBackgroundState_popup. Qed.

Lemma ubs_jobQueue (w : World) :
  jobQueue (updateBackgroundState w) = jobQueue w.
Proof. apply updateBackgroundState_popup. Qed.

Lemma ubs_reviewSection (w : World) :
  reviewSection (updateBackgroundState w) = reviewSection w.
Proof. apply updateBackgroundState_popup. Qed.

Lemma ubs_isProcessing (w : World) :
  isProcessing (updateBackgroundState w) = isProcessing w.
Proof. apply updateBackgroundState_popup. Qed.

Lemma ubs_isPaused (w : World) :
  isPaused (updateBackgroundState w) = isPaused w.
Proof. apply updateBackgroundState_popup. Qed.

Lemma ubs_timers (w : World) : timers (updateBackgroundState w) = timers w.
Proof. apply updateBackgroundState_popup. Qed.

Lemma ubs_calls (w : World) : calls (updateBackgroundState w) = calls w.
Proof. apply updateBackgroundState_popup. Qed.

Lemma ubs_contentListeners (w : World) :
  contentListeners (updateBackgroundState w) = contentListeners w.
Proof. apply updateBackgroundState_popup. Qed.

Lemma ubs_applicationState (w : World) :
  applicationState (updateBackgroundState w) = sent_state w.
Proof.
  unfold updateBackgroundState, bg_update, bg_continueProcessing, sent_state.
  simpl. destruct (isProcessing w); simpl; [|done].
  by destruct (bool_decide _).
Qed.

Lemma ubs_storage (w : World) :
  storage (updateBackgroundState w)
  = st_set_applicationState (sent_state w) (storage w).
Proof.
  unfold updateBackgroundState, bg_update, bg_continueProcessing, sent_state.
  simpl. destruct (isProcessing w); simpl; [|done].
  by destruct (bool_decide _).
Qed.

Lemma ubs_store (w : World) : store (updateBackgroundState w) = store w.
Proof. unfold store. by rewrite ubs_heap, ubs_jobQueue. Qed.

Ltac frame :=
  repeat (progress
            (simpl;
             rewrite ?ubs_heap, ?ubs_jobQueue, ?updateBackgroundState_currentJob,
               ?ubs_reviewSection, ?ubs_isProcessing, ?ubs_isPaused,
               ?ubs_timers, ?ubs_calls, ?ubs_contentListeners,
               ?ubs_applicationState, ?ubs_storage, ?ubs_store)).

Lemma good_updateBackgroundState (w : World) :
  good w (updateBackgroundState w).
Proof.
  intros Hi.
  destruct (updateBackgroundState_popup w)
    as (Hh & Hq & Hc & Hr & _ & _ & _ & _ & _ & Hst).
  apply (keep w); rewrite ?Hh, ?Hq, ?Hc, ?Hr; try done; try apply Hi.
  unfold store. rewrite Hst, Hh, Hq. apply Hi.
Qed.

Lemma good_processJobQueue (env : Env) (w : World) :
  good w (processJobQueue env w).
Proof.
  intros Hi. unfold processJobQueue.
  destruct (isPaused w); [by apply good_refl|].
  destruct (find_job is_pending (heap w) (jobQueue w)) as [a|] eqn:Hf.
  - destruct (scrape_throws env); keeper.
  - keeper.
Qed.

Lemma good_continueProcessing (env : Env) (w : World) :
  good w (continueProcessing env w).
Proof.
  unfold continueProcessing.
  destruct (negb (isProcessing w) || _); [apply good_refl|].
  apply good_processJobQueue.
Qed.

Lemma good_analyzeJobWithAI (env : Env) (job : addr) (w : World) :
  job < length (heap w) → good w (analyzeJobWithAI env job w).
Proof.
  intros Hjob Hi. unfold analyzeJobWithAI.
  destruct (analysis env); keeper.
Qed.

Lemma good_handleJobDescription (env : Env) (jobId : string)
    (description error : option string) (w : World) :
  good w (handleJobDescription env jobId description error w).
Proof.
  intros Hi. unfold handleJobDescription, analyzeJobWithAI.
  destruct (truthy error);
    destruct (find_job (has_id jobId) (heap w) (jobQueue w)) as [a|] eqn:Hf;
    try (by apply good_refl).
  - keeper.
  - destruct (analysis env); keeper.
Qed.

Lemma good_handleApplicationSubmitted (env : Env) (jobId : string)
    (success : bool) (error : option string) (w : World) :
  good w (handleApplicationSubmitted env jobId success error w).
Proof.
  intros Hi. unfold handleApplicationSubmitted.
  destruct (find_job (has_id jobId) (heap w) (jobQueue w)) as [a|] eqn:Hf;
    [|by apply good_refl].
  destruct success; keeper.
Qed.

Lemma good_push (js : list Job) (w : World) :
  good w (saveJobQueue (push_jobs js w)).
Proof.
  intros [Hwf Hs]. unfold inv. split_and!.
  - pose proof (wf_push js w Hwf) as Hp.
    apply (wf_same (push_jobs js w)); try done; apply Hp.
  - done.
  - unfold ids. change (store (saveJobQueue (push_jobs js w)))
      with (store (push_jobs js w)).
    rewrite store_push by done. rewrite fmap_app. by apply prefix_app_r.
Qed.

Lemma good_handleScrapedJobs (env : Env) (newJobs : option (list Job))
    (w : World) :
  good w (handleScrapedJobs env newJobs w).
Proof.
  unfold handleScrapedJobs.
  destruct newJobs as [[|j js]|]; [intros Hi; keeper| |intros Hi; keeper].
  case_bool_decide; [intros Hi; keeper|].
  eapply good_trans; [apply good_push|apply good_processJobQueue].
Qed.

Lemma good_confirmApplication (submit_throws : option string) (w : World) :
  good w (confirmApplication submit_throws w).
Proof.
  intros Hi. unfold confirmApplication.
  destruct (currentJob w) as [cur|] eqn:Hc; [|by apply good_refl].
  destruct submit_throws; keeper.
Qed.

Lemma good_declineApplication (w : World) : good w (declineApplication w).
Proof.
  intros Hi. unfold declineApplication.
  destruct (currentJob w) as [cur|] eqn:Hc; [|by apply good_refl].
  keeper.
Qed.

Lemma good_toggleJobStar (index : nat) (w : World) :
  good w (toggleJobStar index w).
Proof.
  intros Hi. unfold toggleJobStar.
  destruct (jobQueue w !! index); [|by apply good_refl]. keeper.
Qed.

Lemma good_pauseApplication (w : World) : good w (pauseApplication w).
Proof.
  unfold pauseApplication.
  eapply good_trans; [|apply good_updateBackgroundState].
  intros Hi. keeper.
Qed.

Lemma good_startApplication (tab_on_site inject_throws : bool) (w : World) :
  good w (startApplication tab_on_site inject_throws w).
Proof.
  unfold startApplication.
  destruct (negb (truthy _) || _ || _ || _); [apply good_refl|].
  destruct (negb tab_on_site); [apply good_refl|].
  assert (H1 : good w (updateBackgroundState
                         (with_isPaused false (with_isProcessing true w)))).
  { eapply good_trans; [|apply good_updateBackgroundState].
    intros Hi. keeper. }
  destruct inject_throws.
  - eapply good_trans; [exact H1|].
    eapply good_trans; [|apply good_updateBackgroundState].
    intros Hi. keeper.
  - eapply good_trans; [exact H1|]. intros Hi. keeper.
Qed.

Lemma good_processSpecificJob (env : Env) (index : nat) (w : World) :
  good w (processSpecificJob env index w).
Proof.
  unfold processSpecificJob.
  destruct (jobQueue w !! index) as [job|] eqn:Hq; [|apply good_refl].
  destruct (heap w !! job) as [j|] eqn:Hj; [|apply good_refl].
  destruct (negb (is_pending j)); [apply good_refl|].
  eapply good_trans; [|apply good_processJobQueue].
  eapply good_trans; [|apply good_updateBackgroundState].
  intros Hi. keeper. intros a [= <-]. by eapply lookup_lt_Some.
Qed.

Lemma good_backgroundMessageListener (env : Env) (message : Message)
    (w : World) :
  good w (backgroundMessageListener env message w).
Proof.
  unfold backgroundMessageListener.
  destruct message as [| | |[job|]]; try apply good_refl.
  eapply good_trans; [|apply good_continueProcessing].
  intros Hi. apply (keep_alloc job w); try done.
  simpl. intros a [= <-]. lia.
Qed.

Lemma good_contentListener (env : Env) (message : Message) (w : World) :
  good w (contentListener env message w).
Proof.
  destruct message; simpl.
  - apply good_handleScrapedJobs.
  - apply good_handleJobDescription.
  - apply good_handleApplicationSubmitted.
  - apply good_refl.
Qed.

Lemma good_iter (f : World → World) (n : nat) (w : World) :
  (∀ w, good w (f w)) → good w (Nat.iter n f w).
Proof.
  intros Hf. induction n as [|n IH]; simpl; [apply good_refl|].
  eapply good_trans; [exact IH|apply Hf].
Qed.

Lemma good_onMessage (env : Env) (message : Message) (w : World) :
  good w (onMessage env message w).
Proof.
  unfold onMessage.
  eapply good_trans; [apply good_backgroundMessageListener|].
  apply good_iter. intros w'. apply good_contentListener.
Qed.

Lemma good_fire (env : Env) (i : nat) (w : World) : good w (fire env i w).
Proof.
  unfold fire. destruct (timers w !! i) as [t|]; [|apply good_refl].
  destruct t.
  - eapply good_trans; [|apply good_processJobQueue]. intros Hi. keeper.
  - eapply good_trans; [|apply good_continueProcessing]. intros Hi. keeper.
  - intros Hi. unfold injectDescriptionScript.
    destruct (description_script_throws env); keeper.
Qed.

Lemma good_bg_notify (env : Env) (w : World) : good w (bg_notify env w).
Proof.
  unfold bg_notify. destruct (processTimeout w) as [|n]; [apply good_refl|].
  eapply good_trans; [|apply good_onMessage]. intros Hi. keeper.
Qed.

Lemma good_restoreApplicationState (w : World) :
  good w (restoreApplicationState w).
Proof.
  intros Hi. unfold restoreApplicationState.
  destruct (as_currentJob (applicationState w)) as [j|]; simpl.
  - destruct (as_isProcessing (applicationState w)); simpl;
      apply (keep_alloc j w); try done; simpl; intros a [= <-]; lia.
  - rewrite andb_false_r. keeper.
Qed.

Lemma loadJobQueue_store (w : World) :
  store (loadJobQueue w) = default [] (st_jobQueue (storage w)).
Proof.
  unfold store, loadJobQueue. simpl.
  apply (omap_lookup_seq [] (default [] (st_jobQueue (storage w)))).
Qed.

Lemma loadJobQueue_inv (w : World) :
  currentJob w = None → reviewSection w = None → inv (loadJobQueue w).
Proof.
  intros Hc Hr. split.
  - split; simpl.
    + apply Forall_forall. intros a Ha%elem_of_seq. lia.
    + apply NoDup_seq.
    + by rewrite Hc.
    + by rewrite Hr.
  - unfold synced. by rewrite loadJobQueue_store.
Qed.

(** Opening a popup builds a well-formed instance whose queue is the
    persisted collection, whatever the previous instance was. *)
Lemma attach_inv (w : World) : inv (attach w).
Proof.
  unfold attach. apply good_restoreApplicationState.
  by apply loadJobQueue_inv.
Qed.

Lemma attach_ids (w : World) :
  ids (attach w) = post_id <$> default [] (st_jobQueue (storage w)).
Proof.
  unfold attach.
  set (fresh := mkWorld [] [] None false false 0 None [] (storage w)
                        (applicationState w) (processTimeout w) (calls w)).
  assert (Hi : inv (loadJobQueue fresh)) by by apply loadJobQueue_inv.
  destruct (good_restoreApplicationState _ Hi) as [[Hwf Hs] _].
  unfold ids. rewrite <- Hs.
  assert (storage (restoreApplicationState (loadJobQueue fresh)) = storage w)
    as ->; [|done].
  unfold restoreApplicationState.
  destruct (as_currentJob _), (as_isProcessing _); done.
Qed.

Lemma clearAllData_inv (confirmed : bool) (w : World) :
  inv w → inv (clearAllData confirmed w).
Proof.
  intros [Hwf Hs]. destruct confirmed; [|done]. split; [|done].
  split; simpl; [constructor|constructor|apply Hwf|apply Hwf].
Qed.

Theorem step_inv (env : Env) (e : Event) (w : World) :
  inv w → inv (step env e w).
Proof.
  intros Hi. destruct e; simpl.
  - by apply good_startApplication.
  - by apply good_pauseApplication.
  - by apply clearAllData_inv.
  - by apply good_confirmApplication.
  - by apply good_declineApplication.
  - by apply good_processSpecificJob.
  - by apply good_toggleJobStar.
  - by apply good_onMessage.
  - by apply good_fire.
  - by apply good_bg_notify.
  - apply attach_inv.
Qed.

Theorem reachable_inv (s : Storage) (w : World) : reachable s w → inv w.
Proof.
  induction 1 as [|env e w _ IH]; [apply attach_inv|by apply step_inv].
Qed.


Lemma run_reachable (s : Storage) (env : Env) (trace : list Event) (w : World) :
  reachable s w → reachable s (run env trace w).
Proof.
  revert w. induction trace as [|e trace IH]; intros w Hw; [done|].
  apply IH. by constructor.
Qed.

Lemma discovered_reachable : reachable settings discovered.
Proof. apply run_reachable. constructor. Qed.

Lemma under_review_reachable : reachable settings under_review.
Proof. constructor. apply discovered_reachable. Qed.

(** ** Duplicate filtering at insertion (C3) *)

Lemma processJobQueue_ids (env : Env) (w : World) :
  ids (processJobQueue env w) = ids w.
Proof.
  unfold processJobQueue. destruct (isPaused w); [done|].
  destruct (find_job _ _ _); [|done].
  destruct (scrape_throws env); [|done].
  apply ids_same; keep_ids.
Qed.

(** What an insertion does to the ids: the candidates whose id is not yet
    in the store are appended, all of them. *)
Lemma handleScrapedJobs_ids (env : Env) (js : list Job) (w : World) :
  wf w →
  ids (handleScrapedJobs env (Some js) w) =
  ids w ++ (post_id <$>
              filter (λ job, post_id job ∉ (list_to_set (ids w) : gset string))
                     js).
Proof.
  intros Hwf. unfold handleScrapedJobs. fold (ids w).
  destruct js as [|j js]; [by rewrite app_nil_r|].
  case_bool_decide as Hlen.
  - apply nil_length_inv in Hlen. rewrite Hlen. by rewrite app_nil_r.
  - rewrite processJobQueue_ids. unfold ids at 1.
    change (store (saveJobQueue ?w)) with (store w).
    by rewrite store_push, fmap_app.
Qed.

Lemma NoDup_fmap_filter {A B} (f : A → B) (P : A → Prop)
    `{∀ x, Decision (P x)} (l : list A) :
  NoDup (f <$> l) → NoDup (f <$> filter P l).
Proof.
  induction l as [|x l IH]; [done|]. csimpl. intros [Hx Hl]%NoDup_cons.
  rewrite filter_cons. case_decide; [|by apply IH]. csimpl.
  apply NoDup_cons. split; [|by apply IH].
  intros (y & Hy & Hin%list_elem_of_filter)%list_elem_of_fmap.
  apply Hx. apply list_elem_of_fmap. exists y. by destruct Hin.
Qed.

(** The filter keeps ids unique when the batch itself has no id twice. *)
Lemma handleScrapedJobs_NoDup (env : Env) (js : list Job) (w : World) :
  wf w → NoDup (ids w) → NoDup (post_id <$> js) →
  NoDup (ids (handleScrapedJobs env (Some js) w)).
Proof.
  intros Hwf Hw Hjs. rewrite handleScrapedJobs_ids by done.
  apply NoDup_app. split_and!; [done| |by apply NoDup_fmap_filter].
  intros x Hx (y & -> & [Hy _]%list_elem_of_filter)%list_elem_of_fmap.
  apply Hy. by apply elem_of_list_to_set.
Qed.

(** C3, at the failing input: the store is empty and the listing script
    reports the same job twice in one batch (two cards, one id).  Both
    objects are pushed: the store holds the id 4001 twice. *)
Theorem handleScrapedJobs_duplicate_in_batch :
  let before := step quiet (Start true false) (boot settings) in
  let after :=
    step quiet (Receive (JOBS_SCRAPED (Some [jobA; jobA_again]))) before in
  ids before = [] ∧ ids after = ["4001"; "4001"] ∧ ¬ NoDup (ids after).
Proof.
  split_and!; [by vm_compute|by vm_compute|].
  assert (ids (step quiet (Receive (JOBS_SCRAPED (Some [jobA; jobA_again])))
                    (step quiet (Start true false) (boot settings)))
          = ["4001"; "4001"]) as -> by by vm_compute.
  intros [Hnotin _]%NoDup_cons. apply Hnotin. left.
Qed.

(** ** Clear-all (C8) *)




(** ** Failures of the external calls (C4) *)

(** A navigation that throws in [scrapeJobDescription]: the selected job is
    skipped with the message, the queue is saved and the loop is re-armed
    after 1000 ms. *)
Lemma processJobQueue_scrape_throws (env : Env) (w : World) (a : addr)
    (j : Job) (message : string) :
  isPaused w = false →
  find_job is_pending (heap w) (jobQueue w) = Some a →
  heap w !! a = Some j →
  scrape_throws env = Some message →
  let w' := processJobQueue env w in
  heap w' !! a = Some (set_error (Some message) (set_status skipped j)) ∧
  st_jobQueue (storage w') = Some (store w') ∧
  timers w' = timers w ++ [TProcessJobQueue 1000] ∧
  calls w' = calls w.
Proof.
  intros Hp Hf Hj Hs. unfold processJobQueue. rewrite Hp, Hf, Hs. simpl.
  by rewrite !list_lookup_alter_eq, Hj.
Qed.

(** A failed analysis: the same, with the prefixed message. *)
Lemma analyzeJobWithAI_fails (env : Env) (w : World) (job : addr) (j : Job)
    (message : string) :
  heap w !! job = Some j →
  analysis env = AiFailed message →
  let w' := analyzeJobWithAI env job w in
  heap w' !! job =
    Some (set_error (Some (String.append "AI analysis failed: " message))
                    (set_status skipped j)) ∧
  st_jobQueue (storage w') = Some (store w') ∧
  timers w' = timers w ++ [TProcessJobQueue 1000] ∧
  isProcessing w' = isProcessing w.
Proof.
  intros Hj Ha. unfold analyzeJobWithAI. rewrite Ha. simpl.
  by rewrite !list_lookup_alter_eq, Hj.
Qed.

(** [handleJobDescription] when it does receive an error. *)
Lemma handleJobDescription_error (env : Env) (w : World) (job : addr)
    (j : Job) (jobId : string) (description error : option string) :
  truthy error = true →
  find_job (has_id jobId) (heap w) (jobQueue w) = Some job →
  heap w !! job = Some j →
  let w' := handleJobDescription env jobId description error w in
  heap w' !! job = Some (set_error error (set_status skipped j)) ∧
  st_jobQueue (storage w') = Some (store w') ∧
  timers w' = timers w ++ [TProcessJobQueue 1000] ∧
  calls w' = calls w.
Proof.
  intros Ht Hf Hj. unfold handleJobDescription. rewrite Ht, Hf. simpl.
  by rewrite !list_lookup_alter_eq, Hj.
Qed.

(** The listener never hands the error over. *)
Lemma contentListener_drops_error (env : Env) (w : World) (jobId : string)
    (description error : option string) :
  contentListener env (JOB_DESCRIPTION_SCRAPED jobId description error) w =
  handleJobDescription env jobId description None w.
Proof. done. Qed.

(** C4, at the failing input: the page script finds no description for the
    selected job and reports the error.  Through the listener the job is not
    skipped and no error is recorded: an undefined description is stored,
    the analysis runs on it and the job goes under review, no continuation
    being armed.  The handler, given the same error, skips the job, records
    it and re-arms the loop after 1000 ms. *)
Theorem description_error_is_dropped :
  let failure := Some "Could not find job description" in
  let w := step quiet (Receive (JOB_DESCRIPTION_SCRAPED "4001" None failure))
                discovered in
  let intended := handleJobDescription quiet "4001" None failure discovered in
  contentListeners discovered = 1 ∧
  status <$> store discovered = [pending; pending] ∧
  status <$> store w = [reviewing; pending] ∧
  error <$> store w = [None; None] ∧
  description <$> store w = [None; None] ∧
  calls w = calls discovered ++ [Analyze 0] ∧
  timers w = [] ∧
  status <$> store intended = [skipped; pending] ∧
  error <$> store intended = [failure; None] ∧
  timers intended = [TProcessJobQueue 1000].
Proof. by vm_compute. Qed.

(** ** Persistence of the application state (C5) *)

(** The job collection, at least, is persisted by every handler that
    touches it. *)
Lemma reachable_synced (s : Storage) (w : World) :
  reachable s w → default [] (st_jobQueue (storage w)) = store w.
Proof. intros Hr. by apply (reachable_inv s). Qed.

(** C5, at the failing input: a job reaches the review.  The popup has set
    [isProcessing] to false and selected job 0, but the background, which was
    last told at start, still holds and has persisted [isProcessing = true]
    with no current job and an empty queue; a popup opened at this point
    restores [isProcessing = true]. *)
Theorem review_pause_is_not_persisted :
  isProcessing under_review = false ∧
  currentJob under_review = Some 0 ∧
  status <$> store under_review = [reviewing; pending] ∧
  applicationState under_review = mkAppState true None [] ∧
  st_applicationState (storage under_review) = Some (mkAppState true None []) ∧
  isProcessing (attach under_review) = true ∧
  currentJob (attach under_review) = None.
Proof. by vm_compute. Qed.

(** ** Approval and the submission result (C9) *)

Lemma find_job_by_id_aux (h : list Job) (q : list addr) (cur : addr)
    (j : Job) :
  Forall (λ a, a < length h) q →
  NoDup (post_id <$> omap (λ a, h !! a) q) →
  cur ∈ q → h !! cur = Some j →
  find_job (has_id (post_id j)) h q = Some cur.
Proof.
  intros Hq. induction Hq as [|a q Ha Hq IH]; intros Hn Hcur Hj.
  - by apply elem_of_nil in Hcur.
  - apply lookup_lt_is_Some_2 in Ha as [ja Hja].
    revert Hn. csimpl. rewrite Hja. csimpl. intros [Hnotin Hn]%NoDup_cons.
    destruct (decide (cur = a)) as [->|Hne].
    + assert (ja = j) as -> by congruence.
      unfold has_id. by rewrite bool_decide_eq_true_2.
    + apply elem_of_cons in Hcur as [?|Hcur]; [done|].
      unfold has_id at 1. rewrite bool_decide_eq_false_2; [by apply IH|].
      intros Heq. apply Hnotin. rewrite Heq.
      apply list_elem_of_fmap. exists j. split; [done|].
      apply list_elem_of_omap. by exists cur.
Qed.

(** With unique ids, looking a queued job up by its id finds that job. *)
Lemma find_job_by_id (w : World) (cur : addr) (j : Job) :
  wf w → NoDup (ids w) → cur ∈ jobQueue w → heap w !! cur = Some j →
  find_job (has_id (post_id j)) (heap w) (jobQueue w) = Some cur.
Proof. intros Hwf. apply find_job_by_id_aux, Hwf. Qed.

(** Looking a job up by id does not depend on the fields a handler
    writes. *)
Lemma find_job_has_id_alter (jobId : string) (f : Job → Job) (a : addr)
    (h : list Job) (q : list addr) :
  (∀ j, post_id (f j) = post_id j) →
  find_job (has_id jobId) (alter f a h) q = find_job (has_id jobId) h q.
Proof.
  intros Hf. induction q as [|b q IH]; [done|]. simpl.
  rewrite list_lookup_alter. case_decide as Hab; [|by rewrite IH].
  subst b. destruct (h !! a) as [j|]; simpl; [|done].
  unfold has_id at 1 3. by rewrite Hf, IH.
Qed.

(** One run of [handleApplicationSubmitted] for an id that resolves to the
    job at [a]: the job gets the outcome, the queue is saved and the id
    still resolves to [a]. *)
Lemma handleApplicationSubmitted_found (env : Env) (jobId : string)
    (success : bool) (err : option string) (w : World) (a : addr)
    (j : Job) :
  find_job (has_id jobId) (heap w) (jobQueue w) = Some a →
  heap w !! a = Some j →
  let w' := handleApplicationSubmitted env jobId success err w in
  find_job (has_id jobId) (heap w') (jobQueue w') = Some a ∧
  st_jobQueue (storage w') = Some (store w') ∧
  ∃ j', heap w' !! a = Some j' ∧
        if success then status j' = applied ∧ appliedDate j' = Some (now env)
        else status j' = skipped ∧
             error j' = (if truthy err then err
                          else Some "Application submission failed").
Proof.
  intros Hf Hj. unfold handleApplicationSubmitted. rewrite Hf.
  destruct success; simpl.
  - rewrite !find_job_has_id_alter by (by intros []).
    rewrite !list_lookup_alter_eq, Hj. simpl.
    split_and!; [done|done|]. by eexists.
  - rewrite !find_job_has_id_alter by (by intros []).
    rewrite !list_lookup_alter_eq, Hj. simpl.
    split_and!; [done|done|]. by eexists.
Qed.

(** The same through every listener that [injectJobScrapingScript] added,
    when there is at least one: each of them runs the handler, without the
    reported error. *)
Lemma submission_report_through_listeners (env : Env) (jobId : string)
    (success : bool) (reported : option string) (w : World) (a : addr)
    (j : Job) :
  find_job (has_id jobId) (heap w) (jobQueue w) = Some a →
  heap w !! a = Some j →
  (1 ≤ contentListeners w)%nat →
  let w' := onMessage env (APPLICATION_SUBMITTED jobId success reported) w in
  st_jobQueue (storage w') = Some (store w') ∧
  ∃ j', heap w' !! a = Some j' ∧
        if success then status j' = applied ∧ appliedDate j' = Some (now env)
        else status j' = skipped ∧
             error j' = Some "Application submission failed".
Proof.
  intros Hf Hj Hl. unfold onMessage. simpl.
  destruct (contentListeners w) as [|n]; [lia|]. clear Hl.
  assert (Hn : ∀ n,
    let w' := Nat.iter (S n)
                (contentListener env
                   (APPLICATION_SUBMITTED jobId success reported)) w in
    find_job (has_id jobId) (heap w') (jobQueue w') = Some a ∧
    st_jobQueue (storage w') = Some (store w') ∧
    ∃ j', heap w' !! a = Some j' ∧
          if success
          then status j' = applied ∧ appliedDate j' = Some (now env)
          else status j' = skipped ∧
               error j' = Some "Application submission failed").
  { clear n. intros n. induction n as [|n IH].
    - apply (handleApplicationSubmitted_found env jobId success None w a j
               Hf Hj).
    - cbv zeta in IH. destruct IH as (Hf' & _ & j' & Hj' & _).
      rewrite Nat.iter_succ.
      apply (handleApplicationSubmitted_found env jobId success None _ a j'
               Hf' Hj'). }
  destruct (Hn n) as (_ & Hsaved & Hout). by split.
Qed.

(** The path on which an approval reaches the job under review.  The
    current job is under review, it is the job that its id resolves to
    (always so when the ids of the store are unique, see [find_job_by_id])
    and a listener is registered.  The user approves: the job becomes
    [applying] and the submission is started.  When the page then reports
    success, the job becomes [applied] and its [appliedDate] is the time of
    the report; when it reports a failure, the job becomes [skipped] and its
    [error] is set.  When starting the submission throws, the job becomes
    [skipped] with the message thrown.  Each time the queue is saved. *)
Theorem approve_then_submission_result (env : Env) (w : World) (cur : addr)
    (j : Job) :
  currentJob w = Some cur →
  heap w !! cur = Some j → status j = reviewing →
  find_job (has_id (post_id j)) (heap w) (jobQueue w) = Some cur →
  (1 ≤ contentListeners w)%nat →
  let w1 := confirmApplication None w in
  (status <$> heap w1 !! cur = Some applying ∧
   calls w1 = calls w ++ [Submit cur]) ∧
  (∀ reported,
      let w2 := onMessage env
                  (APPLICATION_SUBMITTED (post_id j) true reported) w1 in
      ∃ j2, heap w2 !! cur = Some j2 ∧ status j2 = applied ∧
            appliedDate j2 = Some (now env) ∧
            st_jobQueue (storage w2) = Some (store w2)) ∧
  (∀ reported,
      let w2 := onMessage env
                  (APPLICATION_SUBMITTED (post_id j) false reported) w1 in
      ∃ j2, heap w2 !! cur = Some j2 ∧ status j2 = skipped ∧
            is_Some (error j2) ∧
            st_jobQueue (storage w2) = Some (store w2)) ∧
  (∀ message,
      let w2 := confirmApplication (Some message) w in
      ∃ j2, heap w2 !! cur = Some j2 ∧ status j2 = skipped ∧
            error j2 = Some message ∧
            st_jobQueue (storage w2) = Some (store w2)).
Proof.
  intros Hc Hj Hst Hfind Hl w1.
  assert (Hh1 : heap w1 = alter (set_status applying) cur (heap w)).
  { subst w1. unfold confirmApplication. by rewrite Hc. }
  assert (Hq1 : jobQueue w1 = jobQueue w).
  { subst w1. unfold confirmApplication. by rewrite Hc. }
  assert (Hl1 : (1 ≤ contentListeners w1)%nat).
  { subst w1. unfold confirmApplication. by rewrite Hc. }
  assert (Hj1 : heap w1 !! cur = Some (set_status applying j)).
  { by rewrite Hh1, list_lookup_alter_eq, Hj. }
  assert (Hfind1 : find_job (has_id (post_id j)) (heap w1) (jobQueue w1)
                   = Some cur).
  { rewrite Hh1, Hq1, find_job_has_id_alter; [done|]. by intros []. }
  split_and!.
  - by rewrite Hj1.
  - subst w1. unfold confirmApplication. by rewrite Hc.
  - intros reported w2.
    destruct (submission_report_through_listeners env (post_id j) true
                reported w1 cur _ Hfind1 Hj1 Hl1)
      as (Hsaved & j2 & Hj2 & Hs2 & Hd2).
    by exists j2.
  - intros reported w2.
    destruct (submission_report_through_listeners env (post_id j) false
                reported w1 cur _ Hfind1 Hj1 Hl1)
      as (Hsaved & j2 & Hj2 & Hs2 & He2).
    exists j2. rewrite He2. by split_and!.
  - intros message w2. subst w2. unfold confirmApplication. rewrite Hc.
    simpl. rewrite !list_lookup_alter_eq, Hj. simpl.
    eexists. split; [done|]. done.
Qed.

Lemma under_review_wf : wf under_review.
Proof. apply (reachable_inv settings), under_review_reachable. Qed.

Lemma approve_then_submission_result_witness :
  let w1 := confirmApplication None under_review in
  let w2 := onMessage quiet (APPLICATION_SUBMITTED "4001" true None) w1 in
  ∃ j2, heap w2 !! 0 = Some j2 ∧ status j2 = applied ∧
        appliedDate j2 = Some "now" ∧
        st_jobQueue (storage w2) = Some (store w2).
Proof.
  assert (Hn : NoDup (ids under_review)).
  { assert (ids under_review = ["4001"; "4002"]) as -> by by vm_compute.
    apply NoDup_cons. split.
    - intros [=]%list_elem_of_singleton.
    - apply NoDup_singleton. }
  assert (Hin : 0 ∈ jobQueue under_review).
  { assert (jobQueue under_review = [0; 1]) as -> by by vm_compute. left. }
  assert (Hj : ∃ j, heap under_review !! 0 = Some j ∧ status j = reviewing ∧
                    post_id j = "4001").
  { vm_compute. eexists. split; [reflexivity|]. split; reflexivity. }
  assert (Hl : (1 ≤ contentListeners under_review)%nat).
  { assert (contentListeners under_review = 1) as -> by by vm_compute. done. }
  destruct Hj as (j & Hj & Hst & Hid).
  pose proof (approve_then_submission_result quiet under_review 0 j
                eq_refl Hj Hst
                (find_job_by_id under_review 0 j under_review_wf Hn Hin Hj)
                Hl)
    as (_ & Hok & _).
  rewrite Hid in Hok. exact (Hok None).
Defined.

(** C9, the code at the failing input.  Job 4001 is under review and the
    review section shows it; the user has asked for the pending job 4002,
    which is therefore the current job.  The user approves what is shown:
    it is job 4002, which was never analysed and has no cover letter, that
    becomes [applying] and is submitted, and the review section is hidden.
    When the page reports that this submission succeeded, job 4002 is
    [applied]; job 4001, the one in [reviewing] that the user approved, is
    still [reviewing], with no date of application. *)
Theorem approve_submits_unreviewed_job :
  let w := step quiet (ProcessSpecific 1) under_review in
  let w1 := step quiet (Approve None) w in
  let w2 := step quiet (Receive (APPLICATION_SUBMITTED "4002" true None)) w1 in
  reachable settings w ∧
  ((λ j, (post_id j, status j, coverLetter j)) <$> store w
   = [("4001", reviewing, Some "letter"); ("4002", pending, None)] ∧
   reviewSection w = Some 0 ∧ currentJob w = Some 1 ∧
   contentListeners w = 1) ∧
  (calls w1 = calls w ++ [Submit 1] ∧ reviewSection w1 = None ∧
   (λ j, (post_id j, status j, coverLetter j)) <$> store w1
   = [("4001", reviewing, Some "letter"); ("4002", applying, None)]) ∧
  (λ j, (post_id j, status j, appliedDate j)) <$> store w2
  = [("4001", reviewing, None); ("4002", applied, Some "now")].
Proof.
  split; [|by vm_compute].
  constructor. apply under_review_reachable.
Qed.

(** ** The review pause (C6) *)

(** C6, counterexample.  Job 0 is under review: [isProcessing] is false and
    the review section shows it.  Without any approval or refusal, the user
    asks to process the pending job 1: [isProcessing] is true again, job 1
    is the current job and its description is requested, while job 0 is
    still [reviewing] and still shown for decision. *)
Lemma process_specific_during_review :
  let w := step quiet (ProcessSpecific 1) under_review in
  (status <$> store under_review = [reviewing; pending] ∧
   isProcessing under_review = false ∧
   reviewSection under_review = Some 0 ∧
   timers under_review = []) ∧
  isProcessing w = true ∧ currentJob w = Some 1 ∧
  status <$> store w = [reviewing; pending] ∧
  reviewSection w = Some 0 ∧
  calls w = calls under_review ++ [ScrapeDescription 1].
Proof. by vm_compute. Qed.

(** *** Who submits *)

Ltac silent :=
  unfold submits; frame; rewrite ?omap_app; simpl; rewrite ?app_nil_r;
  try done.

Lemma submits_processJobQueue (env : Env) (w : World) :
  submits (processJobQueue env w) = submits w.
Proof.
  unfold processJobQueue. destruct (isPaused w); [done|].
  destruct (find_job _ _ _); [|done]. destruct (scrape_throws env); by silent.
Qed.

Lemma submits_continueProcessing (env : Env) (w : World) :
  submits (continueProcessing env w) = submits w.
Proof.
  unfold continueProcessing. destruct (negb (isProcessing w) || _); [done|].
  apply submits_processJobQueue.
Qed.

Lemma submits_contentListener (env : Env) (m : Message) (w : World) :
  submits (contentListener env m w) = submits w.
Proof.
  destruct m as [newJobs|jobId d e|jobId s e|job]; simpl; [| | |done].
  - unfold handleScrapedJobs. destruct newJobs as [[|j js]|]; [done| |done].
    case_bool_decide; [done|]. rewrite submits_processJobQueue. by silent.
  - unfold handleJobDescription, analyzeJobWithAI.
    destruct (find_job _ _ _); [|done]. destruct (analysis env); by silent.
  - unfold handleApplicationSubmitted.
    destruct (find_job _ _ _); [|done]. destruct s; by silent.
Qed.

Lemma submits_onMessage (env : Env) (m : Message) (w : World) :
  submits (onMessage env m w) = submits w.
Proof.
  unfold onMessage. generalize (contentListeners w). intros n.
  transitivity (submits (backgroundMessageListener env m w)).
  - generalize (backgroundMessageListener env m w). intros w1.
    induction n as [|n IH]; [done|]. simpl.
    by rewrite submits_contentListener.
  - unfold backgroundMessageListener. destruct m as [| | |[job|]]; try done.
    rewrite submits_continueProcessing. by silent.
Qed.

(** A click other than the approval, a message, a timer, a reminder of the
    background, the opening of a popup: none of them submits. *)
Lemma submits_step (env : Env) (e : Event) (w : World) :
  (∀ submit_throws, e ≠ Approve submit_throws) →
  submits (step env e w) = submits w.
Proof.
  intros Happrove. destruct e; simpl.
  - unfold startApplication.
    destruct (negb (truthy _) || _ || _ || _); [done|].
    destruct (negb tab_on_site); [done|].
    destruct inject_throws; by silent.
  - unfold pauseApplication. by silent.
  - by destruct confirmed.
  - by destruct (Happrove submit_throws).
  - unfold declineApplication. destruct (currentJob w); [|done]. by silent.
  - unfold processSpecificJob.
    destruct (jobQueue w !! index) as [job|]; [|done].
    destruct (heap w !! job) as [j|]; [|done].
    destruct (negb (is_pending j)); [done|].
    rewrite submits_processJobQueue. by silent.
  - unfold toggleJobStar. destruct (jobQueue w !! index); [|done]. by silent.
  - apply submits_onMessage.
  - unfold fire.
    destruct (timers w !! i) as [[d|d|job d]|]; [| | |done].
    + rewrite submits_processJobQueue. by silent.
    + rewrite submits_continueProcessing. by silent.
    + unfold injectDescriptionScript.
      destruct (description_script_throws env); by silent.
  - unfold bg_notify. destruct (processTimeout w); [done|].
    rewrite submits_onMessage. by silent.
  - unfold attach, restoreApplicationState, loadJobQueue. simpl.
    destruct (as_currentJob _); simpl; by destruct (as_isProcessing _).
Qed.

(** C6, as amended.  When the analysis of a job succeeds, the job becomes
    [reviewing], the review section shows it and [isProcessing] is false;
    that step arms no timer, changes no current job and issues no call
    besides the analysis itself: no submission, no description request.
    No submission is performed while the decision is pending unless the
    user approves: whatever the state, an event other than an approval (any
    other click, a message, a timer, a reminder of the background, the
    opening of a popup) submits nothing.  When there is a current job, an
    approval and a refusal both set [isProcessing] to true and re-arm the
    loop (after 2000 ms and 1000 ms); the approval submits the current job,
    unless starting the submission throws, and the refusal submits
    nothing.  Nothing in this says that other inputs wait for the decision
    before they select another job. *)
Theorem review_pauses_the_controller (env : Env) (w : World) (job : addr)
    (j : Job) (score : option Z) (letter : option string) :
  heap w !! job = Some j →
  analysis env = AiAnswer score letter →
  let w' := analyzeJobWithAI env job w in
  (status <$> heap w' !! job = Some reviewing ∧
   isProcessing w' = false ∧ reviewSection w' = Some job ∧
   timers w' = timers w ∧ currentJob w' = currentJob w ∧
   calls w' = calls w ++ [Analyze job] ∧
   st_jobQueue (storage w') = Some (store w')) ∧
  (∀ env0 e w0,
      (∀ submit_throws, e ≠ Approve submit_throws) →
      submits (step env0 e w0) = submits w0) ∧
  (∀ cur, currentJob w' = Some cur →
      (∀ submit_throws,
          let w'' := confirmApplication submit_throws w' in
          isProcessing w'' = true ∧ reviewSection w'' = None ∧
          timers w'' = timers w' ++ [TProcessJobQueue 2000] ∧
          submits w'' = submits w' ++ match submit_throws with
                                      | None => [cur]
                                      | Some _ => []
                                      end) ∧
      (let w'' := declineApplication w' in
       isProcessing w'' = true ∧ reviewSection w'' = None ∧
       timers w'' = timers w' ++ [TProcessJobQueue 1000] ∧
       calls w'' = calls w')).
Proof.
  intros Hj Ha w'. subst w'. unfold analyzeJobWithAI. rewrite Ha.
  split; [|split].
  - simpl. rewrite !list_lookup_alter_eq, Hj. done.
  - intros env0 e w0. apply submits_step.
  - intros cur Hcur. split.
    + intros submit_throws. unfold confirmApplication. rewrite Hcur.
      destruct submit_throws; by silent.
    + unfold declineApplication. by rewrite Hcur.
Qed.

Lemma review_pauses_the_controller_witness :
  let w := sample_world [sample_job "A" pending; sample_job "B" pending] in
  let w' := analyzeJobWithAI quiet 0 w in
  isProcessing w' = false ∧ reviewSection w' = Some 0 ∧ timers w' = timers w ∧
  submits (step quiet Decline w') = submits w'.
Proof.
  intros w w'.
  destruct (review_pauses_the_controller quiet w 0 (sample_job "A" pending)
              (Some 82%Z) (Some "letter") eq_refl eq_refl)
    as ((_ & Hp & Hr & Ht & _) & Hs & _).
  split_and!; [exact Hp|exact Hr|exact Ht|].
  apply Hs. intros submit_throws. discriminate.
Defined.

(** ** The in-flight job (C1) *)

(** C1, counterexample.  Right after a successful start the popup has
    [isProcessing = true] and no current job at all, the store being empty;
    and after a refusal [isProcessing] is true while the current job is
    skipped. *)
Lemma processing_without_live_current_job :
  let started := step quiet (Start true false) (boot settings) in
  let declined := step quiet Decline under_review in
  reachable settings started ∧
  isProcessing started = true ∧ currentJob started = None ∧
  store started = [] ∧
  isProcessing declined = true ∧ currentJob declined = Some 0 ∧
  status <$> heap declined !! 0 = Some skipped.
Proof.
  split_and!; try by vm_compute.
  constructor. constructor.
Qed.

(** C1, as amended.  In a reachable state at most one queued job is
    designated by [currentJob].  A not-paused run of the loop that finds a
    pending job designates that job, which is in the queue.  Processing a
    specific job that is pending leaves [isProcessing = true] with a current
    job that is in the queue and is pending, or skipped when its extraction
    just failed to start.  Starting does not touch the current job. *)
Theorem in_flight_designation (s : Storage) (env : Env) (w : World) :
  reachable s w →
  (length (in_flight w) ≤ 1)%nat ∧
  (isPaused w = false →
   ∀ a, find_job is_pending (heap w) (jobQueue w) = Some a →
        let w' := processJobQueue env w in
        currentJob w' = Some a ∧ a ∈ jobQueue w' ∧
        ∃ j, heap w !! a = Some j ∧ status j = pending) ∧
  (∀ index job j,
      jobQueue w !! index = Some job → heap w !! job = Some j →
      status j = pending →
      let w' := processSpecificJob env index w in
      isProcessing w' = true ∧
      ∃ c jc, currentJob w' = Some c ∧ c ∈ jobQueue w' ∧
              heap w' !! c = Some jc ∧
              (status jc = pending ∨
               (status jc = skipped ∧ is_Some (scrape_throws env)))) ∧
  (∀ tab_on_site inject_throws,
      currentJob (startApplication tab_on_site inject_throws w)
      = currentJob w).
Proof.
  intros Hr. split_and!.
  - apply in_flight_at_most_one. by apply (reachable_inv s).
  - intros Hp a Hf w'. subst w'. unfold processJobQueue. rewrite Hp, Hf.
    pose proof (find_job_elem_of _ _ _ _ Hf) as Hin.
    apply find_job_Some in Hf as (i & j & _ & Hj & Hpj & _).
    apply is_pending_true in Hpj.
    destruct (scrape_throws env); simpl; eauto.
  - intros index job j Hq Hj Hst w'. subst w'. unfold processSpecificJob.
    rewrite Hq, Hj. apply is_pending_true in Hst. rewrite Hst. simpl.
    destruct (updateBackgroundState_popup
                (with_isProcessing true (with_currentJob (Some job) w)))
      as (Hh & Hqq & Hc & _ & Hproc & Hpau & _).
    simpl in Hh, Hqq, Hc, Hproc, Hpau.
    set (w2 := updateBackgroundState _) in *.
    unfold processJobQueue. rewrite Hpau, Hh, Hqq. simpl.
    destruct (isPaused w).
    + split; [by rewrite Hproc|]. exists job, j. rewrite Hc, Hqq, Hh. simpl.
      split_and!; try done.
      * by eapply list_elem_of_lookup_2.
      * left. by apply is_pending_true.
    + destruct (find_job is_pending (heap w) (jobQueue w)) as [a|] eqn:Hf.
      * pose proof (find_job_elem_of _ _ _ _ Hf) as Hin.
        apply find_job_Some in Hf as (i & ja & _ & Hja & Hpa & _).
        apply is_pending_true in Hpa.
        destruct (scrape_throws env) as [message|] eqn:Hs; simpl.
        -- split; [by rewrite Hproc|]. eexists a, _. rewrite Hqq, Hh.
           split_and!; try done.
           ++ by rewrite !list_lookup_alter_eq, Hja.
           ++ right. split; [done|]. by eexists.
        -- split; [by rewrite Hproc|]. exists a, ja. rewrite Hqq, Hh.
           split_and!; try done. by left.
      * exfalso. rewrite find_job_None in Hf.
        assert (is_pending j = false) as Hn by
          (apply (Hf job); [by eapply list_elem_of_lookup_2|done]).
        congruence.
  - intros tab_on_site inject_throws. unfold startApplication.
    destruct (negb (truthy _) || _ || _ || _); [done|].
    destruct (negb tab_on_site); [done|].
    destruct inject_throws; simpl;
      rewrite ?updateBackgroundState_currentJob; simpl;
      by rewrite ?updateBackgroundState_currentJob.
Qed.

Lemma in_flight_designation_witness :
  (length (in_flight discovered) ≤ 1)%nat ∧
  isProcessing (processSpecificJob quiet 1 discovered) = true.
Proof.
  destruct (in_flight_designation settings quiet discovered
              discovered_reachable) as (Hone & _ & Hspecific & _).
  split; [exact Hone|].
  assert (Hq : jobQueue discovered !! 1 = Some 1) by by vm_compute.
  assert (Hj : heap discovered !! 1 = Some jobB) by by vm_compute.
  exact (proj1 (Hspecific 1 1 jobB Hq Hj eq_refl)).
Defined.

(** ** Resuming after the popup was closed (C2) *)





(** * Further properties of the code *)

(** ** Settings *)

Lemma truthy_Some (x : string) : truthy (Some x) = true ↔ x ≠ "".
Proof.
  simpl. rewrite negb_true_iff. split.
  - intros Hx ->. by rewrite String.eqb_refl in Hx.
  - intros Hx. by apply String.eqb_neq.
Qed.

Lemma pick_stored (x : string) :
  (if truthy (Some x) then default "" (Some x) else "") = x.
Proof.
  destruct (truthy (Some x)) eqn:Ht; [done|].
  simpl in Ht. apply negb_false_iff, String.eqb_eq in Ht. by subst.
Qed.

(** X1.  Settings that were saved are the settings a popup opened afterwards
    shows: loading into the blank form gives back every field, the empty
    ones included.  Saving changes no other key and nothing of the
    pipeline. *)
Theorem settings_round_trip (form : Settings) (w : World) :
  loadUserData blank_form (saveSettings form w) = form ∧
  loadUserData blank_form (attach (saveSettings form w)) = form ∧
  st_jobQueue (storage (saveSettings form w)) = st_jobQueue (storage w) ∧
  st_applicationState (storage (saveSettings form w))
  = st_applicationState (storage w) ∧
  store (saveSettings form w) = store w.
Proof.
  assert (H1 : loadUserData blank_form (saveSettings form w) = form).
  { destruct form as [k c v t]. unfold loadUserData. cbn -[truthy].
    by rewrite !pick_stored. }
  split_and!; try done.
  unfold loadUserData in *. 
  assert (storage (attach (saveSettings form w))
          = storage (saveSettings form w)) as ->; [|done].
  unfold attach, restoreApplicationState. simpl.
  destruct (as_currentJob _), (as_isProcessing _); done.
Qed.

(** X2.  The settings gate of [startApplication].  After a confirmed
    clear-all, a start changes nothing.  After settings were saved, a start
    on the site goes through exactly when the four fields are non-empty: it
    then un-pauses, sets [isProcessing], injects the listing script with the
    saved keywords and adds one listener; otherwise it changes nothing. *)
Theorem start_needs_saved_settings (form : Settings) (w : World) :
  (∀ tab_on_site inject_throws,
      startApplication tab_on_site inject_throws (clearAllData true w)
      = clearAllData true w) ∧
  (complete form →
   let w' := startApplication true false (saveSettings form w) in
   isProcessing w' = true ∧ isPaused w' = false ∧
   contentListeners w' = S (contentListeners w) ∧
   calls w' = calls w ++ [InjectScraping (keywords form)] ∧
   store w' = store w) ∧
  (¬ complete form →
   ∀ tab_on_site inject_throws,
     startApplication tab_on_site inject_throws (saveSettings form w)
     = saveSettings form w).
Proof.
  split_and!.
  - done.
  - intros (Hk & Hc & Hv & Ht) w'. subst w'. unfold startApplication.
    cbn -[truthy updateBackgroundState].
    rewrite !(proj2 (truthy_Some _)) by done.
    cbn -[updateBackgroundState]. unfold store. frame. done.
  - intros Hn tab_on_site inject_throws. unfold startApplication.
    cbn -[truthy updateBackgroundState].
    destruct (truthy (Some (keywords form))) eqn:Hk; [|done].
    destruct (truthy (Some (criteria form))) eqn:Hc; [|done].
    destruct (truthy (Some (cv form))) eqn:Hv; [|done].
    destruct (truthy (Some (llmToken form))) eqn:Ht; [|done].
    exfalso. apply Hn. unfold complete. by rewrite <- !truthy_Some.
Qed.

Lemma start_needs_saved_settings_witness :
  let form := mkSettings "backend engineer" "remote" "cv" "token" in
  let w' := startApplication true false
              (saveSettings form (sample_world [])) in
  isProcessing w' = true ∧ calls w' = [InjectScraping "backend engineer"].
Proof.
  intros form w'.
  assert (Hc : complete form) by (by repeat split).
  destruct (start_needs_saved_settings form (sample_world []))
    as (_ & Hgo & _).
  destruct (Hgo Hc) as (Hp & _ & _ & Hcalls & _).
  split; [exact Hp|exact Hcalls].
Defined.

(** ** The logger *)

Lemma Logger_log_all_snoc (es : list Logger.entry) (e : Logger.entry)
    (lg : Logger.t) :
  Logger.log_all (es ++ [e]) lg = Logger.log e (Logger.log_all es lg).
Proof. unfold Logger.log_all. by rewrite foldl_app. Qed.

Lemma Logger_log_all_maxLogs (es : list Logger.entry) (lg : Logger.t) :
  Logger.maxLogs (Logger.log_all es lg) = Logger.maxLogs lg.
Proof.
  induction es as [|e es IH] using rev_ind; [done|].
  by rewrite Logger_log_all_snoc.
Qed.

Lemma Logger_logs_log_all (stored : option (list Logger.entry))
    (es : list Logger.entry) :
  Logger.logs (Logger.log_all es (Logger.create stored))
  = drop (length es - 1000) es.
Proof.
  induction es as [|e es IH] using rev_ind; [done|].
  rewrite Logger_log_all_snoc. unfold Logger.log at 1.
  rewrite Logger_log_all_maxLogs, IH. cbn [Logger.logs Logger.create Logger.maxLogs].
  rewrite length_app, length_drop. cbn [length].
  assert (Hpush : drop (length es - 1000) es ++ [e]
                  = drop (length es - 1000) (es ++ [e])).
  { rewrite drop_app_le by lia. done. }
  case_decide as Hfull.
  - rewrite Hpush.
    assert (Htail : ∀ l : list Logger.entry, tail l = drop 1 l) by by intros [].
    rewrite Htail, drop_drop. f_equal. rewrite length_app. simpl. lia.
  - rewrite Hpush. f_equal. rewrite length_app. simpl. lia.
Qed.

(** X3.  The logger is a bounded buffer.  After any entries were logged by a
    new logger, in order, it holds the last 1000 of them, oldest first, and
    the storage key [debug_logs] holds the last 100 of them; with nothing
    logged the key is what it was.  [clearLogs] empties both. *)
Theorem Logger_keeps_the_last_entries (stored : option (list Logger.entry))
    (es : list Logger.entry) :
  let lg := Logger.log_all es (Logger.create stored) in
  Logger.getLogs lg = drop (length es - 1000) es ∧
  (length (Logger.getLogs lg) ≤ 1000)%nat ∧
  Logger.debug_logs lg
  = match es with
    | [] => stored
    | _ :: _ => Some (drop (length es - 100) es)
    end ∧
  Logger.getLogs (Logger.clearLogs lg) = [] ∧
  Logger.debug_logs (Logger.clearLogs lg) = None.
Proof.
  intros lg. subst lg. unfold Logger.getLogs.
  split_and!; try done.
  - apply Logger_logs_log_all.
  - rewrite Logger_logs_log_all, length_drop. lia.
  - destruct es as [|e0 es0] using rev_ind; [done|]. clear IHes0.
    assert (es0 ++ [e0] ≠ []) as Hne by by destruct es0.
    destruct (es0 ++ [e0]) as [|x l] eqn:Heq; [done|]. rewrite <- Heq.
    clear Hne Heq x l.
    rewrite Logger_log_all_snoc.
    pose proof (Logger_logs_log_all stored (es0 ++ [e0])) as Hlogs.
    rewrite Logger_log_all_snoc in Hlogs.
    unfold Logger.log in *. cbn [Logger.logs Logger.debug_logs] in *.
    rewrite Hlogs. unfold Logger.slice_last. f_equal.
    rewrite drop_drop, length_drop. f_equal. lia.
Qed.

(** ** The counters of the summary tab *)

Lemma count_statuses_acc (q : list Job) (acc : gmap Status nat) (st : Status) :
  default 0
    (foldl (λ acc job, <[status job := default 0 (acc !! status job) + 1]> acc)
           acc q !! st)
  = default 0 (acc !! st) + length (filter (λ j, status j = st) q).
Proof.
  revert acc. induction q as [|j q IH]; intros acc; simpl; [lia|].
  rewrite IH, filter_cons. case_decide as Hst.
  - rewrite Hst, lookup_insert_eq. simpl. lia.
  - by rewrite lookup_insert_ne.
Qed.

Lemma count_by_status (q : list Job) :
  length (filter (λ j, status j = pending) q)
  + length (filter (λ j, status j = reviewing) q)
  + length (filter (λ j, status j = applying) q)
  + length (filter (λ j, status j = applied) q)
  + length (filter (λ j, status j = skipped) q)
  = length q.
Proof.
  induction q as [|j q IH]; [done|].
  rewrite !filter_cons. destruct (status j); repeat case_decide; try done;
    simpl; lia.
Qed.

(** X4.  Each of the four counters shown by [updateStats] is the number of
    queued jobs with that status.  Jobs that are [applying] are in no
    counter: the four counters add up to the length of the queue less the
    number of such jobs. *)
Theorem updateStats_counts (w : World) :
  let s := updateStats w in
  let count st := length (filter (λ j, status j = st) (store w)) in
  pending_count s = count pending ∧ applied_count s = count applied ∧
  skipped_count s = count skipped ∧ reviewing_count s = count reviewing ∧
  pending_count s + applied_count s + skipped_count s + reviewing_count s
  + count applying = length (store w).
Proof.
  intros s count. subst s count. unfold updateStats, count_statuses. simpl.
  rewrite !count_statuses_acc, !lookup_empty. simpl.
  split_and!; try done.
  pose proof (count_by_status (store w)). lia.
Qed.

(** ** Starring a job *)

(** X5.  [toggleJobStar] flips the star of the job at the index, touches no
    other job and no other field, and saves the queue; toggling twice gives
    the jobs back as they were.  An index outside the queue changes
    nothing. *)
Theorem toggleJobStar_flips_one_star (index : nat) (w : World) :
  (∀ a j,
      jobQueue w !! index = Some a → heap w !! a = Some j →
      let w1 := toggleJobStar index w in
      heap w1 !! a = Some (set_starred (negb (starred j)) j) ∧
      (∀ b, b ≠ a → heap w1 !! b = heap w !! b) ∧
      st_jobQueue (storage w1) = Some (store w1) ∧
      (isProcessing w1, currentJob w1, timers w1, calls w1)
      = (isProcessing w, currentJob w, timers w, calls w) ∧
      heap (toggleJobStar index w1) = heap w ∧
      store (toggleJobStar index w1) = store w) ∧
  (jobQueue w !! index = None → toggleJobStar index w = w).
Proof.
  split.
  - intros a j Hq Hj w1. subst w1. unfold toggleJobStar. rewrite Hq. simpl.
    rewrite Hq. simpl.
    assert (Hback : alter (λ j, set_starred (negb (starred j)) j) a
                      (alter (λ j, set_starred (negb (starred j)) j) a
                             (heap w)) = heap w).
    { rewrite list_alter_alter_eq. apply list_alter_id.
      intros []. unfold set_starred. simpl. by rewrite negb_involutive. }
    split_and!; try done.
    + by rewrite list_lookup_alter_eq, Hj.
    + intros b Hb. by rewrite list_lookup_alter_ne.
    + unfold store. simpl. by rewrite Hback.
  - intros Hq. unfold toggleJobStar. by rewrite Hq.
Qed.

Lemma toggleJobStar_flips_one_star_witness :
  let w := sample_world [sample_job "A" pending; sample_job "B" pending] in
  store (toggleJobStar 1 (toggleJobStar 1 w)) = store w.
Proof.
  intros w.
  destruct (toggleJobStar_flips_one_star 1 w) as [Hin _].
  destruct (Hin 1 (sample_job "B" pending) eq_refl eq_refl)
    as (_ & _ & _ & _ & _ & Hstore).
  exact Hstore.
Defined.

(** ** Results for a job that is not in the queue *)

(** X6.  A description or a submission result whose id is the id of no
    queued job is ignored, by the listener and by the handlers: nothing is
    written, saved, armed or called.  This is the case of every result that
    arrives after a clear-all. *)
Theorem results_for_unknown_job_are_ignored (env : Env) (jobId : string)
    (w : World) :
  (∀ a j, a ∈ jobQueue w → heap w !! a = Some j → post_id j ≠ jobId) →
  (∀ d e, contentListener env (JOB_DESCRIPTION_SCRAPED jobId d e) w = w) ∧
  (∀ s e, contentListener env (APPLICATION_SUBMITTED jobId s e) w = w) ∧
  (∀ d e, handleJobDescription env jobId d e w = w) ∧
  (∀ s e, handleApplicationSubmitted env jobId s e w = w).
Proof.
  intros Hno.
  assert (Hf : find_job (has_id jobId) (heap w) (jobQueue w) = None).
  { apply find_job_None. intros a j Ha Hj. unfold has_id.
    apply bool_decide_eq_false. eauto. }
  split_and!; intros; simpl;
    unfold handleJobDescription, handleApplicationSubmitted; rewrite Hf;
    try done; by destruct (truthy _).
Qed.

Lemma results_for_unknown_job_are_ignored_witness :
  let w := clearAllData true discovered in
  contentListener quiet
    (JOB_DESCRIPTION_SCRAPED "4001" (Some "We build things") None) w = w.
Proof.
  intros w.
  assert (Hno : ∀ a j, a ∈ jobQueue w → heap w !! a = Some j →
                       post_id j ≠ "4001").
  { intros a j Ha. by apply elem_of_nil in Ha. }
  destruct (results_for_unknown_job_are_ignored quiet "4001" w Hno)
    as (Hd & _).
  apply Hd.
Defined.

(** ** Processing a chosen job *)

(** X7.  [processSpecificJob] on a pending job tells the background that
    this job is current, but the job that is then processed is the one the
    scheduling loop selects: the first pending job of the queue, at or before
    the chosen index. *)
Theorem processSpecificJob_processes_first_pending (env : Env) (index : nat)
    (job : addr) (j : Job) (w : World) :
  jobQueue w !! index = Some job → heap w !! job = Some j →
  status j = pending →
  isPaused w = false → scrape_throws env = None →
  let w' := processSpecificJob env index w in
  ∃ i first,
    (i ≤ index)%nat ∧ jobQueue w !! i = Some first ∧
    find_job is_pending (heap w) (jobQueue w) = Some first ∧
    currentJob w' = Some first ∧
    calls w' = calls w ++ [ScrapeDescription first] ∧
    isProcessing w' = true ∧
    as_currentJob (applicationState w') = Some j ∧
    as_isProcessing (applicationState w') = true ∧
    heap w' = heap w.
Proof.
  intros Hq Hj Hst Hp Hs w'. subst w'. unfold processSpecificJob.
  rewrite Hq, Hj. apply is_pending_true in Hst. rewrite Hst. simpl.
  unfold processJobQueue. frame. rewrite Hp, Hs.
  destruct (find_job is_pending (heap w) (jobQueue w)) as [first|] eqn:Hf.
  - destruct (find_job_Some _ _ _ _ Hf) as (i & jf & Hi & Hjf & Hpf & Hbefore).
    exists i, first. frame. unfold sent_state. simpl. rewrite Hj.
    split_and!; try done.
    destruct (decide (i ≤ index)%nat) as [|Hgt]; [done|].
    rewrite (Hbefore index job j) in Hst; [done|lia|done|done].
  - exfalso. rewrite find_job_None in Hf.
    rewrite (Hf job j) in Hst; [done| |done].
    by eapply list_elem_of_lookup_2.
Qed.

Lemma processSpecificJob_processes_first_pending_witness :
  let w := sample_world [sample_job "A" pending; sample_job "B" pending] in
  ∃ i first,
    (i ≤ 1)%nat ∧ jobQueue w !! i = Some first ∧
    find_job is_pending (heap w) (jobQueue w) = Some first ∧
    currentJob (processSpecificJob quiet 1 w) = Some first ∧
    calls (processSpecificJob quiet 1 w) = calls w ++ [ScrapeDescription first] ∧
    isProcessing (processSpecificJob quiet 1 w) = true ∧
    as_currentJob (applicationState (processSpecificJob quiet 1 w))
    = Some (sample_job "B" pending) ∧
    as_isProcessing (applicationState (processSpecificJob quiet 1 w)) = true ∧
    heap (processSpecificJob quiet 1 w) = heap w.
Proof.
  intros w.
  exact (processSpecificJob_processes_first_pending quiet 1 1
           (sample_job "B" pending) w eq_refl eq_refl eq_refl eq_refl eq_refl).
Defined.

(** ** The reminder of the background *)

Lemma find_job_app (pred : Job → bool) (h extra : list Job) (q : list addr) :
  Forall (λ a, a < length h) q →
  find_job pred (h ++ extra) q = find_job pred h q.
Proof.
  induction 1 as [|a q Ha _ IH]; [done|]. simpl.
  rewrite lookup_app_l by done. by rewrite IH.
Qed.

Lemma iter_contentListener_continue (env : Env) (job : option Job) (n : nat)
    (w : World) :
  Nat.iter n (contentListener env (CONTINUE_PROCESSING job)) w = w.
Proof. induction n as [|n IH]; [done|]. simpl. by rewrite IH. Qed.

Lemma ubs_processTimeout (w : World) :
  processTimeout (updateBackgroundState w)
  = if isProcessing w
       && bool_decide (is_Some (currentJob w ≫= λ a, heap w !! a))
    then S (processTimeout w) else processTimeout w.
Proof.
  unfold updateBackgroundState, bg_update, bg_continueProcessing. simpl.
  destruct (isProcessing w); simpl; [|done]. by destruct (bool_decide _).
Qed.

(** X8.  Every state update with [isProcessing = true] and a current job
    arms one more reminder in the background, and none is ever cancelled.
    When a reminder fires while the background holds a current job, the
    popup runs the scheduling loop again, whatever it was doing:
    [isProcessing] is set, and the first pending job becomes the current job
    and has its description requested, also when that request was already
    made. *)
Theorem background_reminder_restarts_the_loop (env : Env) (w : World) :
  processTimeout (updateBackgroundState w)
  = (if isProcessing w
        && bool_decide (is_Some (currentJob w ≫= λ a, heap w !! a))
     then S (processTimeout w) else processTimeout w) ∧
  (∀ n j a,
      wf w → processTimeout w = S n →
      as_currentJob (applicationState w) = Some j →
      isPaused w = false → scrape_throws env = None →
      find_job is_pending (heap w) (jobQueue w) = Some a →
      let w' := bg_notify env w in
      processTimeout w' = n ∧ isProcessing w' = true ∧
      currentJob w' = Some a ∧
      calls w' = calls w ++ [ScrapeDescription a] ∧
      store w' = store w).
Proof.
  split; [apply ubs_processTimeout|].
  intros n j a Hwf Hn Hj Hp Hs Hf w'. subst w'. unfold bg_notify.
  rewrite Hn. simpl. rewrite Hj. unfold onMessage.
  rewrite iter_contentListener_continue. simpl.
  unfold continueProcessing, processJobQueue. simpl. rewrite Hp, Hs.
  rewrite find_job_app by apply Hwf. rewrite Hf. simpl.
  split_and!; try done.
  unfold store. simpl. apply omap_lookup_app, Hwf.
Qed.

Lemma background_reminder_restarts_the_loop_witness :
  let w := step quiet (ProcessSpecific 0) discovered in
  calls (bg_notify quiet w) = calls w ++ [ScrapeDescription 0].
Proof.
  intros w.
  destruct (background_reminder_restarts_the_loop quiet w) as [_ Hfire].
  assert (Hwf : wf w).
  { apply (reachable_inv settings). constructor. apply discovered_reachable. }
  assert (Hn : processTimeout w = 1) by by vm_compute.
  assert (Hj : as_currentJob (applicationState w) = Some jobA) by by vm_compute.
  assert (Hp : isPaused w = false) by by vm_compute.
  assert (Hf : find_job is_pending (heap w) (jobQueue w) = Some 0)
    by by vm_compute.
  destruct (Hfire 0 jobA 0 Hwf Hn Hj Hp eq_refl Hf) as (_ & _ & _ & Hc & _).
  exact Hc.
Defined.

(** ** Closing and reopening the popup *)

Lemma attach_eq (w : World) :
  attach w =
  let stored := default [] (st_jobQueue (storage w)) in
  let state := applicationState w in
  match as_currentJob state with
  | Some j =>
      mkWorld (stored ++ [j]) (seq 0 (length stored)) (Some (length stored))
              (as_isProcessing state) false 0 None
              (if as_isProcessing state then [TContinueProcessing 1000]
               else [])
              (storage w) state (processTimeout w) (calls w)
  | None =>
      mkWorld stored (seq 0 (length stored)) None (as_isProcessing state)
              false 0 None [] (storage w) state (processTimeout w) (calls w)
  end.
Proof.
  unfold attach, restoreApplicationState, loadJobQueue. simpl.
  destruct (as_currentJob (applicationState w)); simpl.
  - by destruct (as_isProcessing (applicationState w)).
  - by rewrite andb_false_r.
Qed.


Lemma attach_current_detached (w : World) (a : addr) :
  currentJob (attach w) = Some a → a ∉ jobQueue (attach w).
Proof.
  rewrite attach_eq. simpl.
  destruct (as_currentJob (applicationState w)); simpl; [|done].
  intros [= <-] Hin%elem_of_seq. lia.
Qed.

(** Writing to an object that the queue does not reference leaves the
    store as it is. *)
Lemma omap_lookup_alter_notin (f : Job → Job) (a : addr) (h : list Job)
    (q : list addr) :
  a ∉ q → omap (λ x, alter f a h !! x) q = omap (λ x, h !! x) q.
Proof.
  induction q as [|b q IH]; [done|]. intros Hn. csimpl.
  rewrite list_lookup_alter_ne.
  - rewrite IH; [done|]. intros Hq. apply Hn. by right.
  - intros ->. apply Hn. left.
Qed.



(** X10.  In a popup that was just opened, an approval or a refusal reaches
    no stored job: the current job, if any, is the restored copy, so the
    queue that is saved is unchanged.  And no result sent by the page is
    handled, there being no listener until the next start. *)
Theorem decision_after_reopen_reaches_no_stored_job (env : Env) (w : World) :
  let w1 := attach w in
  (∀ submit_throws,
      store (confirmApplication submit_throws w1) = store w1 ∧
      default [] (st_jobQueue (storage (confirmApplication submit_throws w1)))
      = store w1) ∧
  store (declineApplication w1) = store w1 ∧
  default [] (st_jobQueue (storage (declineApplication w1))) = store w1 ∧
  (∀ jobs, onMessage env (JOBS_SCRAPED jobs) w1 = w1) ∧
  (∀ jobId d e, onMessage env (JOB_DESCRIPTION_SCRAPED jobId d e) w1 = w1) ∧
  (∀ jobId s e, onMessage env (APPLICATION_SUBMITTED jobId s e) w1 = w1).
Proof.
  intros w1.
  pose proof (attach_current_detached w) as Hdet. fold w1 in Hdet.
  assert (Hsync : default [] (st_jobQueue (storage w1)) = store w1)
    by apply attach_inv.
  assert (Hl : contentListeners w1 = 0).
  { subst w1. rewrite attach_eq. simpl. by destruct (as_currentJob _). }
  split_and!.
  - intros submit_throws. unfold confirmApplication.
    destruct (currentJob w1) as [c|] eqn:Hc; [|done].
    specialize (Hdet c eq_refl).
    destruct submit_throws; simpl; unfold store; simpl;
      by rewrite !omap_lookup_alter_notin by done.
  - unfold declineApplication.
    destruct (currentJob w1) as [c|] eqn:Hc; [|done].
    specialize (Hdet c eq_refl). simpl. unfold store. simpl.
    by rewrite !omap_lookup_alter_notin by done.
  - unfold declineApplication.
    destruct (currentJob w1) as [c|] eqn:Hc; [|done].
    specialize (Hdet c eq_refl). simpl. unfold store. simpl.
    by rewrite !omap_lookup_alter_notin by done.
  - intros jobs. unfold onMessage. by rewrite Hl.
  - intros jobId d e. unfold onMessage. by rewrite Hl.
  - intros jobId s e. unfold onMessage. by rewrite Hl.
Qed.

(** ** Pause *)

Lemma held_refl (w : World) : held w w.
Proof. by intros Hp. Qed.

Lemma held_trans (w1 w2 w3 : World) : held w1 w2 → held w2 w3 → held w1 w3.
Proof.
  intros H12 H23 Hp. destruct (H12 Hp) as (Hp2 & Hs2 & Hi2 & Ht2).
  destruct (H23 Hp2) as (Hp3 & Hs3 & Hi3 & Ht3).
  split_and!; [done|congruence..].
Qed.

Ltac hold :=
  unfold held, scrapes, injections, injections_to_come; frame;
  rewrite ?omap_app; simpl; rewrite ?app_nil_r; try done.

Lemma held_processJobQueue (env : Env) (w : World) :
  held w (processJobQueue env w).
Proof. intros Hp. unfold processJobQueue. by rewrite Hp. Qed.

Lemma held_continueProcessing (env : Env) (w : World) :
  held w (continueProcessing env w).
Proof.
  unfold continueProcessing.
  destruct (negb (isProcessing w) || _); [apply held_refl|].
  apply held_processJobQueue.
Qed.

Lemma held_contentListener (env : Env) (m : Message) (w : World) :
  held w (contentListener env m w).
Proof.
  destruct m as [newJobs|jobId d e|jobId s e|job]; simpl;
    [| | |apply held_refl].
  - unfold handleScrapedJobs.
    destruct newJobs as [[|j js]|]; [by hold| |by hold].
    case_bool_decide; [by hold|].
    eapply held_trans; [|apply held_processJobQueue]. by hold.
  - unfold handleJobDescription, analyzeJobWithAI.
    destruct (find_job _ _ _); [|apply held_refl].
    destruct (analysis env); by hold.
  - unfold handleApplicationSubmitted.
    destruct (find_job _ _ _); [|apply held_refl]. destruct s; by hold.
Qed.

Lemma held_onMessage (env : Env) (m : Message) (w : World) :
  held w (onMessage env m w).
Proof.
  unfold onMessage. generalize (contentListeners w). intros n.
  apply (held_trans w (backgroundMessageListener env m w)).
  - unfold backgroundMessageListener.
    destruct m as [| | |[job|]]; try apply held_refl.
    eapply held_trans; [|apply held_continueProcessing]. by hold.
  - generalize (backgroundMessageListener env m w). intros w1.
    induction n as [|n IH]; [apply held_refl|]. simpl.
    eapply held_trans; [exact IH|apply held_contentListener].
Qed.

(** Taking a timer away: the injections to come lose at most the one taken. *)
Lemma omap_delete_other {A B} (f : A → option B) (l : list A) (i : nat)
    (x : A) :
  l !! i = Some x → f x = None → omap f (delete i l) = omap f l.
Proof.
  revert i. induction l as [|y l IH]; intros [|i] Hl Hf; try done.
  - simpl in Hl. injection Hl as ->. csimpl. by rewrite Hf.
  - csimpl. by rewrite (IH i Hl Hf).
Qed.

Lemma omap_delete_sublist {A B} (f : A → option B) (l : list A) (i : nat) :
  omap f (delete i l) `sublist_of` omap f l.
Proof.
  revert i. induction l as [|y l IH]; intros [|i]; try done.
  - csimpl. destruct (f y); [by apply sublist_cons|done].
  - csimpl. destruct (f y); [apply sublist_skip|]; apply IH.
Qed.

Lemma held_step (env : Env) (e : Event) (w : World) :
  (∀ tab_on_site inject_throws, e ≠ Start tab_on_site inject_throws) →
  e ≠ Attach →
  (∀ i job delay, e = Fire i →
                  timers w !! i ≠ Some (TInjectDescription job delay)) →
  held w (step env e w).
Proof.
  intros Hstart Hattach Hfire. destruct e; simpl.
  - by destruct (Hstart tab_on_site inject_throws).
  - unfold pauseApplication. by hold.
  - destruct confirmed; by hold.
  - unfold confirmApplication. destruct (currentJob w); [|apply held_refl].
    destruct submit_throws; by hold.
  - unfold declineApplication. destruct (currentJob w); [|apply held_refl].
    by hold.
  - unfold processSpecificJob.
    destruct (jobQueue w !! index) as [job|]; [|apply held_refl].
    destruct (heap w !! job) as [j|]; [|apply held_refl].
    destruct (negb (is_pending j)); [apply held_refl|].
    eapply held_trans; [|apply held_processJobQueue]. by hold.
  - unfold toggleJobStar.
    destruct (jobQueue w !! index); [|apply held_refl]. by hold.
  - apply held_onMessage.
  - unfold fire.
    destruct (timers w !! i) as [[d|d|job d]|] eqn:Ht; [| | |apply held_refl].
    + eapply held_trans; [|apply held_processJobQueue].
      intros Hp. hold. by rewrite (omap_delete_other _ _ _ _ Ht).
    + eapply held_trans; [|apply held_continueProcessing].
      intros Hp. hold. by rewrite (omap_delete_other _ _ _ _ Ht).
    + by destruct (Hfire i job d).
  - unfold bg_notify. destruct (processTimeout w); [apply held_refl|].
    eapply held_trans; [|apply held_onMessage]. by hold.
  - done.
Qed.

Lemma fire_injection (env : Env) (i : nat) (job : addr) (delay : nat)
    (w : World) :
  timers w !! i = Some (TInjectDescription job delay) →
  let w' := fire env i w in
  isPaused w' = isPaused w ∧ scrapes w' = scrapes w ∧
  timers w' = delete i (timers w) ∧
  injections w' = injections w ++
                  (if description_script_throws env then [] else [job]).
Proof.
  intros Ht. unfold fire, injectDescriptionScript. rewrite Ht.
  destruct (description_script_throws env); hold.
Qed.

(** X11.  What pause holds back and what it does not.  From a paused state,
    whatever happens next other than a start or the opening of a new popup
    (a click, a result from the page, a timer, a reminder of the background)
    leaves the popup paused, calls [scrapeJobDescription] for no job and
    schedules the injection of no description script.  The only description
    script that is still injected is that of a timer armed by
    [scrapeJobDescription] before: its callback does not look at [isPaused],
    so that it injects the script of its job when it fires, paused or
    not. *)
Theorem pause_holds (env : Env) (e : Event) (w : World) :
  isPaused w = true →
  (∀ tab_on_site inject_throws, e ≠ Start tab_on_site inject_throws) →
  e ≠ Attach →
  (isPaused (step env e w) = true ∧ scrapes (step env e w) = scrapes w ∧
   injections_to_come (step env e w) `sublist_of` injections_to_come w ∧
   (injections (step env e w) = injections w ∨
    ∃ i job delay,
      e = Fire i ∧ timers w !! i = Some (TInjectDescription job delay) ∧
      injections (step env e w) = injections w ++ [job])) ∧
  (∀ i job delay,
      timers w !! i = Some (TInjectDescription job delay) →
      description_script_throws env = false →
      injections (step env (Fire i) w) = injections w ++ [job]).
Proof.
  intros Hp Hstart Hattach. split.
  - assert (Hcases :
      (∃ i job delay, e = Fire i ∧
                      timers w !! i = Some (TInjectDescription job delay)) ∨
      (∀ i job delay, e = Fire i →
                      timers w !! i ≠ Some (TInjectDescription job delay))).
    { destruct e; try by (right; intros; discriminate).
      destruct (timers w !! i) as [[d|d|job d]|] eqn:Ht.
      - right. intros i' job delay [= <-]. congruence.
      - right. intros i' job delay [= <-]. congruence.
      - left. by exists i, job, d.
      - right. intros i' job delay [= <-]. congruence. }
    destruct Hcases as [(i & job & delay & -> & Ht)|Hother].
    + destruct (fire_injection env i job delay w Ht) as (H1 & H2 & H3 & H4).
      simpl. split_and!.
      * by rewrite H1.
      * done.
      * unfold injections_to_come. rewrite H3. apply omap_delete_sublist.
      * rewrite H4. destruct (description_script_throws env).
        -- left. by rewrite app_nil_r.
        -- right. by exists i, job, delay.
    + destruct (held_step env e w Hstart Hattach Hother Hp)
        as (H1 & H2 & H3 & H4).
      split_and!; [done|done|by rewrite H4|by left].
  - intros i job delay Ht Hthrows. simpl.
    destruct (fire_injection env i job delay w Ht) as (_ & _ & _ & H4).
    by rewrite H4, Hthrows.
Qed.

Lemma pause_holds_witness :
  let w := step quiet Pause selected in
  isPaused (step quiet (Fire 0) w) = true ∧
  scrapes (step quiet (Fire 0) w) = scrapes w ∧
  injections (step quiet (Fire 0) w) = injections w ++ [0].
Proof.
  intros w.
  assert (Hp : isPaused w = true) by by vm_compute.
  assert (Ht : timers w !! 0 = Some (TInjectDescription 0 3000))
    by by vm_compute.
  assert (Hs : ∀ t i, Fire 0 ≠ Start t i) by (intros; discriminate).
  destruct (pause_holds quiet (Fire 0) w Hp Hs ltac:(discriminate))
    as ((H1 & H2 & _) & H5).
  split_and!; [exact H1|exact H2|exact (H5 0 0 3000 Ht eq_refl)].
Defined.

(** ** What happens to a job over time *)

Lemma job_step_refl (j : Job) : job_step j j.
Proof. by repeat split. Qed.

Lemma job_step_trans (j1 j2 j3 : Job) :
  job_step j1 j2 → job_step j2 j3 → job_step j1 j3.
Proof.
  intros (H1 & H2 & H3 & H4 & H5 & H6) (G1 & G2 & G3 & G4 & G5 & G6).
  repeat split; try congruence. auto.
Qed.

Lemma heap_step_refl (h : list Job) : heap_step h h.
Proof. intros a j Hj. exists j. split; [done|apply job_step_refl]. Qed.

Lemma heap_step_trans (h1 h2 h3 : list Job) :
  heap_step h1 h2 → heap_step h2 h3 → heap_step h1 h3.
Proof.
  intros H12 H23 a j Hj. destruct (H12 a j Hj) as (j2 & Hj2 & Hs2).
  destruct (H23 a j2 Hj2) as (j3 & Hj3 & Hs3).
  exists j3. split; [done|]. by eapply job_step_trans.
Qed.

Lemma heap_step_alter (f : Job → Job) (a : addr) (h : list Job) :
  (∀ j, job_step j (f j)) → heap_step h (alter f a h).
Proof.
  intros Hf b j Hj. destruct (decide (a = b)) as [->|Hne].
  - exists (f j). by rewrite list_lookup_alter_eq, Hj.
  - exists j. rewrite list_lookup_alter_ne by done.
    split; [done|apply job_step_refl].
Qed.

Lemma heap_step_app (h extra : list Job) : heap_step h (h ++ extra).
Proof.
  intros a j Hj. exists j. split; [|apply job_step_refl].
  by apply lookup_app_l_Some.
Qed.

Ltac job_steps := intros []; unfold job_step; simpl; by repeat split.

Ltac heap_steps :=
  repeat first
    [ apply heap_step_refl
    | apply heap_step_app
    | (eapply heap_step_trans; [|apply heap_step_alter; job_steps]) ].

Ltac stay := split; [by frame|frame; heap_steps].

Lemma stays_refl (w : World) : stays w w.
Proof. split; [done|apply heap_step_refl]. Qed.

Lemma stays_trans (w1 w2 w3 : World) :
  stays w1 w2 → stays w2 w3 → stays w1 w3.
Proof.
  intros [Hq12 Hh12] [Hq23 Hh23]. split; [congruence|].
  by eapply heap_step_trans.
Qed.



Lemma stays_processJobQueue (env : Env) (w : World) :
  stays w (processJobQueue env w).
Proof.
  unfold processJobQueue. destruct (isPaused w); [apply stays_refl|].
  destruct (find_job _ _ _); [|by stay].
  destruct (scrape_throws env); by stay.
Qed.

Lemma stays_continueProcessing (env : Env) (w : World) :
  stays w (continueProcessing env w).
Proof.
  unfold continueProcessing.
  destruct (negb (isProcessing w) || _); [apply stays_refl|].
  apply stays_processJobQueue.
Qed.

Lemma stays_handleJobDescription (env : Env) (jobId : string)
    (d e : option string) (w : World) :
  stays w (handleJobDescription env jobId d e w).
Proof.
  unfold handleJobDescription, analyzeJobWithAI.
  destruct (truthy e), (find_job _ _ _); try apply stays_refl; [by stay|].
  destruct (analysis env); by stay.
Qed.

Lemma stays_handleApplicationSubmitted (env : Env) (jobId : string)
    (s : bool) (e : option string) (w : World) :
  stays w (handleApplicationSubmitted env jobId s e w).
Proof.
  unfold handleApplicationSubmitted.
  destruct (find_job _ _ _); [|apply stays_refl]. destruct s; by stay.
Qed.

Lemma stays_backgroundMessageListener (env : Env) (m : Message) (w : World) :
  stays w (backgroundMessageListener env m w).
Proof.
  unfold backgroundMessageListener.
  destruct m as [| | |[job|]]; try apply stays_refl.
  eapply stays_trans; [|apply stays_continueProcessing]. by stay.
Qed.




Lemma stays_iter (f : World → World) (n : nat) (w : World) :
  (∀ w, stays w (f w)) → stays w (Nat.iter n f w).
Proof.
  intros Hf. induction n as [|n IH]; [apply stays_refl|]. simpl.
  eapply stays_trans; [exact IH|apply Hf].
Qed.

(** Every event but a clear-all, the opening of a popup and a discovery
    result. *)
Lemma stays_step (env : Env) (e : Event) (w : World) :
  (∀ confirmed, e ≠ ClearAll confirmed) → e ≠ Attach →
  (∀ newJobs, e ≠ Receive (JOBS_SCRAPED newJobs)) →
  stays w (step env e w).
Proof.
  intros Hclear Hattach Hjobs. destruct e; simpl.
  - unfold startApplication.
    destruct (negb (truthy _) || _ || _ || _); [apply stays_refl|].
    destruct (negb tab_on_site); [apply stays_refl|].
    destruct inject_throws; by stay.
  - unfold pauseApplication. by stay.
  - by destruct (Hclear confirmed).
  - unfold confirmApplication.
    destruct (currentJob w); [|apply stays_refl].
    destruct submit_throws; by stay.
  - unfold declineApplication.
    destruct (currentJob w); [|apply stays_refl]. by stay.
  - unfold processSpecificJob.
    destruct (jobQueue w !! index) as [job|]; [|apply stays_refl].
    destruct (heap w !! job) as [j|]; [|apply stays_refl].
    destruct (negb (is_pending j)); [apply stays_refl|].
    eapply stays_trans; [|apply stays_processJobQueue]. by stay.
  - unfold toggleJobStar.
    destruct (jobQueue w !! index); [|apply stays_refl]. by stay.
  - unfold onMessage.
    eapply stays_trans; [apply stays_backgroundMessageListener|].
    apply stays_iter. intros w1.
    destruct message as [newJobs| | |]; simpl.
    + by destruct (Hjobs newJobs).
    + apply stays_handleJobDescription.
    + apply stays_handleApplicationSubmitted.
    + apply stays_refl.
  - unfold fire.
    destruct (timers w !! i) as [[d|d|job d]|]; [| | |apply stays_refl].
    + eapply stays_trans; [|apply stays_processJobQueue]. by stay.
    + eapply stays_trans; [|apply stays_continueProcessing]. by stay.
    + unfold injectDescriptionScript.
      destruct (description_script_throws env); by stay.
  - unfold bg_notify. destruct (processTimeout w); [apply stays_refl|].
    unfold onMessage. rewrite iter_contentListener_continue.
    eapply stays_trans; [|apply stays_backgroundMessageListener]. by stay.
  - done.
Qed.






(** ** Unique ids *)

Lemma ids_heap_step (h h' : list Job) (q : list addr) :
  Forall (λ a, a < length h) q → heap_step h h' →
  omap (λ a, (post_id <$> h') !! a) q = omap (λ a, (post_id <$> h) !! a) q.
Proof.
  intros Hlive Hh. induction Hlive as [|a q Ha _ IH]; [done|]. csimpl.
  apply lookup_lt_is_Some_2 in Ha as [j Hj].
  destruct (Hh a j Hj) as (j' & Hj' & Hid & _).
  rewrite !list_lookup_fmap, Hj, Hj'. simpl. by rewrite Hid, IH.
Qed.

Lemma ids_stays (w w' : World) : wf w → stays w w' → ids w' = ids w.
Proof.
  intros Hwf [Hq Hh]. rewrite !ids_heap, Hq.
  apply ids_heap_step; [apply Hwf|done].
Qed.

Lemma handleScrapedJobs_None (env : Env) (w : World) :
  handleScrapedJobs env None w = with_isProcessing false w.
Proof. done. Qed.

Lemma unique_ids_iter (env : Env) (newJobs : option (list Job)) (n : nat)
    (w : World) :
  inv w → NoDup (ids w) →
  match newJobs with Some js => NoDup (post_id <$> js) | None => True end →
  inv (Nat.iter n (handleScrapedJobs env newJobs) w) ∧
  NoDup (ids (Nat.iter n (handleScrapedJobs env newJobs) w)).
Proof.
  intros Hi Hn Hclean. induction n as [|n [IHi IHn]]; [done|]. simpl.
  split; [by apply good_handleScrapedJobs|].
  destruct newJobs as [js|]; [by apply handleScrapedJobs_NoDup; [apply IHi|..]|].
  by rewrite handleScrapedJobs_None.
Qed.

(** X13.  Unique ids are kept.  From a reachable state whose store holds no
    id twice, no event brings a duplicate in, provided a discovery result
    does not itself hold an id twice; this is so with any number of
    listeners, the batch being inserted by the first of them only. *)
Theorem unique_ids_are_kept (s : Storage) (env : Env) (e : Event) (w : World) :
  reachable s w → NoDup (ids w) → clean_event e →
  NoDup (ids (step env e w)).
Proof.
  intros Hr Hn Hclean. pose proof (reachable_inv s w Hr) as Hi.
  assert (Hcases :
    (∃ newJobs, e = Receive (JOBS_SCRAPED newJobs)) ∨
    (∃ confirmed, e = ClearAll confirmed) ∨ e = Attach ∨
    ((∀ confirmed, e ≠ ClearAll confirmed) ∧ e ≠ Attach ∧
     ∀ newJobs, e ≠ Receive (JOBS_SCRAPED newJobs))).
  { destruct e as [| |c| | | | |[nj| | |]| | |];
      try (by left; eexists); try (by right; left; eexists);
      try (by right; right; left);
      right; right; right; split_and!; try intros ?; discriminate. }
  destruct Hcases as [[newJobs ->]|[[confirmed ->]|[->|(Hc & Ha & Hj)]]].
  - simpl. unfold onMessage. simpl.
    apply unique_ids_iter; [done|done|]. by destruct newJobs.
  - destruct confirmed; [apply NoDup_nil_2|done].
  - simpl. rewrite attach_ids. destruct Hi as [_ Hs]. unfold ids in Hn.
    by rewrite Hs.
  - rewrite (ids_stays w); [done|apply Hi|by apply stays_step].
Qed.

Lemma unique_ids_are_kept_witness :
  NoDup (ids (step quiet (Receive (JOBS_SCRAPED (Some [jobB; jobA])))
                   under_review)).
Proof.
  assert (Hn : NoDup (ids under_review)).
  { assert (ids under_review = ["4001"; "4002"]) as -> by by vm_compute.
    apply NoDup_cons. split; [intros [=]%list_elem_of_singleton|].
    apply NoDup_singleton. }
  assert (Hclean : clean_event (Receive (JOBS_SCRAPED (Some [jobB; jobA])))).
  { simpl. apply NoDup_cons. split; [intros [=]%list_elem_of_singleton|].
    apply NoDup_singleton. }
  exact (unique_ids_are_kept settings quiet _ under_review
           under_review_reachable Hn Hclean).
Defined.

(** ** Several listeners *)

Lemma handleScrapedJobs_known (env : Env) (newJobs : option (list Job))
    (w : World) :
  (∀ js job, newJobs = Some js → job ∈ js → post_id job ∈ ids w) →
  handleScrapedJobs env newJobs w = with_isProcessing false w.
Proof.
  intros Hknown. unfold handleScrapedJobs.
  destruct newJobs as [[|j js]|]; try done.
  fold (ids w). rewrite (filter_known_ids (ids w) (j :: js)); [done|].
  intros job Hjob. by apply (Hknown (j :: js)).
Qed.

Lemma handleScrapedJobs_fresh_ids (env : Env) (newJobs : option (list Job))
    (w : World) :
  wf w →
  ids (handleScrapedJobs env newJobs w) = ids w ++ fresh_ids newJobs w.
Proof.
  intros Hwf. destruct newJobs as [js|]; simpl.
  - by apply handleScrapedJobs_ids.
  - by rewrite app_nil_r.
Qed.

Lemma scraped_known_after (env : Env) (js : list Job) (job : Job) (w : World) :
  wf w → job ∈ js → post_id job ∈ ids (handleScrapedJobs env (Some js) w).
Proof.
  intros Hwf Hjob. rewrite handleScrapedJobs_ids by done.
  apply elem_of_app.
  destruct (decide (post_id job ∈ ids w)) as [Hin|Hnotin]; [by left|right].
  apply list_elem_of_fmap. exists job. split; [done|].
  apply list_elem_of_filter. split; [|done].
  by rewrite elem_of_list_to_set.
Qed.

Lemma handleScrapedJobs_iter (env : Env) (newJobs : option (list Job))
    (n : nat) (w : World) :
  inv w →
  inv (Nat.iter (S n) (handleScrapedJobs env newJobs) w) ∧
  ids (Nat.iter (S n) (handleScrapedJobs env newJobs) w)
  = ids w ++ fresh_ids newJobs w ∧
  (∀ js job, newJobs = Some js → job ∈ js →
             post_id job
             ∈ ids (Nat.iter (S n) (handleScrapedJobs env newJobs) w)) ∧
  ((1 ≤ n)%nat →
   isProcessing (Nat.iter (S n) (handleScrapedJobs env newJobs) w) = false).
Proof.
  intros Hi. induction n as [|n (IHi & IHids & IHknown & _)].
  - simpl. split_and!.
    + by apply good_handleScrapedJobs.
    + apply handleScrapedJobs_fresh_ids, Hi.
    + intros js job -> Hjob. apply scraped_known_after; [apply Hi|done].
    + lia.
  - set (wn := Nat.iter (S n) (handleScrapedJobs env newJobs) w) in *.
    change (Nat.iter (S (S n)) (handleScrapedJobs env newJobs) w)
      with (handleScrapedJobs env newJobs wn).
    rewrite (handleScrapedJobs_known env newJobs wn IHknown).
    split_and!; try done.
    apply (good_handleScrapedJobs env newJobs wn) in IHi as [IHi' _].
    by rewrite (handleScrapedJobs_known env newJobs wn IHknown) in IHi'.
Qed.

(** X14.  A discovery result reaches every listener the popup has, one per
    successful start.  Whatever their number, the batch is inserted once:
    the store gains the ids it did not have, in batch order.  But with two
    listeners or more the last of them finds nothing new and sets
    [isProcessing] to false, also when the first one has just inserted jobs
    and started to process one. *)
Theorem discovery_with_several_listeners (env : Env)
    (newJobs : option (list Job)) (w : World) :
  inv w → (1 ≤ contentListeners w)%nat →
  let w' := onMessage env (JOBS_SCRAPED newJobs) w in
  ids w' = ids w ++ fresh_ids newJobs w ∧
  ((2 ≤ contentListeners w)%nat → isProcessing w' = false).
Proof.
  intros Hi Hl w'. subst w'. unfold onMessage. simpl.
  destruct (contentListeners w) as [|n]; [lia|].
  destruct (handleScrapedJobs_iter env newJobs n w Hi) as (_ & Hids & _ & Hp).
  split; [done|]. intros Hn. apply Hp. lia.
Qed.

Lemma discovery_with_several_listeners_witness :
  let w := step quiet (Start true false)
             (step quiet (Start true false) (boot settings)) in
  let w' := onMessage quiet (JOBS_SCRAPED (Some [jobA; jobB])) w in
  isProcessing w' = false ∧ ids w' = ids w ++ ["4001"; "4002"].
Proof.
  intros w w'.
  assert (Hi : inv w).
  { apply (reachable_inv settings). constructor. constructor. constructor. }
  assert (Hl : contentListeners w = 2) by by vm_compute.
  destruct (discovery_with_several_listeners quiet (Some [jobA; jobB]) w Hi
              ltac:(rewrite Hl; lia)) as [Hids Hp].
  split; [apply Hp; rewrite Hl; lia|].
  subst w'. rewrite Hids. f_equal; by vm_compute.
Defined.

(** ** A run in which every extraction fails to start *)

Lemma fail_first_store (message : string) (h : list Job) (q : list addr)
    (a : addr) :
  NoDup q → find_job is_pending h q = Some a →
  omap (λ x, alter (set_error (Some message))
                   a (alter (set_status skipped) a h) !! x) q
  = fail_first message (omap (λ x, h !! x) q).
Proof.
  intros Hn. rewrite list_alter_alter_eq.
  induction Hn as [|b q Hb Hn IH]; [done|]. simpl. intros Hf. csimpl.
  destruct (h !! b) as [jb|] eqn:Hjb.
  - destruct (is_pending jb) eqn:Hp.
    + injection Hf as <-. rewrite list_lookup_alter_eq, Hjb. simpl.
      rewrite Hp. f_equal. by apply omap_lookup_alter_notin.
    + assert (a ≠ b).
      { intros ->. apply Hb. by eapply find_job_elem_of. }
      rewrite list_lookup_alter_ne, Hjb by done. simpl. rewrite Hp.
      f_equal. by apply IH.
  - assert (a ≠ b).
    { intros ->. apply Hb. by eapply find_job_elem_of. }
    rewrite list_lookup_alter_ne, Hjb by done. by apply IH.
Qed.

Lemma pending_count_find (w : World) :
  pending_count_of w = 0 ↔ find_job is_pending (heap w) (jobQueue w) = None.
Proof.
  unfold pending_count_of, store.
  induction (jobQueue w) as [|a q IH]; [done|]. csimpl.
  destruct (heap w !! a) as [j|]; [|done]. rewrite filter_cons.
  destruct (is_pending j) eqn:Hp.
  - rewrite decide_True by by apply is_pending_true. done.
  - rewrite decide_False by by apply is_pending_false. done.
Qed.

Lemma fail_first_count (message : string) (l : list Job) :
  length (filter (λ j, status j = pending) (fail_first message l))
  = pred (length (filter (λ j, status j = pending) l)).
Proof.
  induction l as [|j l IH]; [done|]. rewrite (filter_cons _ j l).
  change (fail_first message (j :: l))
    with (if is_pending j then failed message j :: l
          else j :: fail_first message l).
  destruct (is_pending j) eqn:Hp.
  - rewrite decide_True by by apply is_pending_true.
    by rewrite filter_cons_False.
  - rewrite decide_False by by apply is_pending_false.
    rewrite filter_cons_False by by apply is_pending_false.
    apply IH.
Qed.

Lemma fail_all_fail_first (message : string) (l : list Job) :
  fail_all message (fail_first message l) = fail_all message l.
Proof.
  unfold fail_all. induction l as [|j l IH]; [done|].
  cbn -[is_pending failed]. destruct (is_pending j) eqn:Hp; cbn -[is_pending].
  - done.
  - rewrite Hp. f_equal. apply IH.
Qed.

Lemma fail_all_none (message : string) (l : list Job) :
  length (filter (λ j, status j = pending) l) = 0 → fail_all message l = l.
Proof.
  unfold fail_all. induction l as [|j l IH]; [done|].
  rewrite filter_cons, fmap_cons. destruct (is_pending j) eqn:Hp.
  - rewrite decide_True by by apply is_pending_true. done.
  - rewrite decide_False by by apply is_pending_false.
    intros Hl. f_equal. by apply IH.
Qed.

Lemma fail_all_count (message : string) (l : list Job) :
  length (filter (λ j, status j = pending) (fail_all message l)) = 0.
Proof.
  unfold fail_all. induction l as [|j l IH]; [done|].
  rewrite fmap_cons, filter_cons_False; [done|].
  destruct (is_pending j) eqn:Hp; [done|]. by apply is_pending_false.
Qed.

(** One failing run, followed by the timer it armed. *)
Lemma failing_run (env : Env) (message : string) (w : World) (a : addr) :
  NoDup (jobQueue w) → isPaused w = false →
  scrape_throws env = Some message →
  find_job is_pending (heap w) (jobQueue w) = Some a →
  ∃ w2, fire_last env (processJobQueue env w) = processJobQueue env w2 ∧
        jobQueue w2 = jobQueue w ∧ isPaused w2 = false ∧
        timers w2 = timers w ∧ calls w2 = calls w ∧
        store w2 = fail_first message (store w) ∧
        st_jobQueue (storage w2) = Some (store w2).
Proof.
  intros Hn Hp Hs Hf.
  exists (with_timers (timers w)
            (saveJobQueue
               (mutate a (set_error (Some message))
                  (mutate a (set_status skipped)
                     (with_currentJob (Some a) w))))).
  split_and!; try done.
  - assert (Hrun : processJobQueue env w =
                   setTimeout (TProcessJobQueue 1000)
                     (saveJobQueue
                        (mutate a (set_error (Some message))
                           (mutate a (set_status skipped)
                              (with_currentJob (Some a) w))))).
    { unfold processJobQueue. by rewrite Hp, Hf, Hs. }
    rewrite Hrun. unfold fire_last, fire.
    simpl. rewrite length_app. simpl.
    replace (length (timers w) + 1 - 1) with (length (timers w)) by lia.
    rewrite list_lookup_middle by done.
    replace (delete (length (timers w)) (timers w ++ [TProcessJobQueue 1000]))
      with (timers w); [done|].
    rewrite (delete_middle (timers w) [] (TProcessJobQueue 1000)).
    by rewrite app_nil_r.
  - unfold store. simpl. by apply fail_first_store.
Qed.

Lemma drain_aux (env : Env) (message : string) (n : nat) (w : World) :
  NoDup (jobQueue w) → isPaused w = false →
  scrape_throws env = Some message →
  pending_count_of w = n →
  let w' := Nat.iter n (fire_last env) (processJobQueue env w) in
  store w' = fail_all message (store w) ∧
  isProcessing w' = false ∧
  timers w' = timers w ∧ calls w' = calls w ∧
  (st_jobQueue (storage w) = Some (store w) →
   st_jobQueue (storage w') = Some (store w')).
Proof.
  intros Hn Hp Hs. revert w Hn Hp.
  induction n as [|n IH]; intros w Hn Hp Hcount.
  - pose proof Hcount as Hnone. apply pending_count_find in Hnone. simpl.
    unfold processJobQueue. rewrite Hp, Hnone.
    split_and!; try done. symmetry. by apply fail_all_none.
  - destruct (find_job is_pending (heap w) (jobQueue w)) as [a|] eqn:Hf.
    2:{ apply pending_count_find in Hf. lia. }
    cbv zeta. rewrite Nat.iter_succ_r.
    destruct (failing_run env message w a Hn Hp Hs Hf)
      as (w2 & -> & Hq2 & Hp2 & Ht2 & Hc2 & Hst2 & Hsaved).
    assert (Hcount2 : pending_count_of w2 = n).
    { unfold pending_count_of in *. rewrite Hst2, fail_first_count.
      by rewrite Hcount. }
    rewrite <- Hq2 in Hn.
    destruct (IH w2 Hn Hp2 Hcount2)
      as (Hstore & Hproc & Htimers & Hcalls & Hsave).
    split_and!; try done.
    + by rewrite Hstore, Hst2, fail_all_fail_first.
    + by rewrite Htimers.
    + by rewrite Hcalls.
    + intros _. by apply Hsave.
Qed.

(** X15.  A run in which every extraction fails to start goes through the
    whole queue and stops.  The loop is entered and each timer it arms is
    fired in turn: after as many timers as there were pending jobs, every
    job that was pending is skipped with the error message, the others are
    as they were, no job is pending, [isProcessing] is false, no timer of
    the run is left and no call was made; the queue was saved if any job
    failed. *)
Theorem failing_run_drains_the_queue (env : Env) (message : string)
    (w : World) :
  NoDup (jobQueue w) → isPaused w = false →
  scrape_throws env = Some message →
  let w' := Nat.iter (pending_count_of w) (fire_last env)
                     (processJobQueue env w) in
  store w' = fail_all message (store w) ∧
  pending_count_of w' = 0 ∧
  isProcessing w' = false ∧
  timers w' = timers w ∧ calls w' = calls w ∧
  (pending_count_of w ≠ 0 → st_jobQueue (storage w') = Some (store w')).
Proof.
  intros Hn Hp Hs w'.
  destruct (drain_aux env message (pending_count_of w) w Hn Hp Hs eq_refl)
    as (Hstore & Hproc & Htimers & Hcalls & _).
  fold w' in Hstore, Hproc, Htimers, Hcalls.
  split_and!; try done.
  - unfold pending_count_of at 1. rewrite Hstore. apply fail_all_count.
  - intros Hne. subst w'.
    destruct (find_job is_pending (heap w) (jobQueue w)) as [a|] eqn:Hf.
    2:{ by apply pending_count_find in Hf. }
    destruct (pending_count_of w) as [|n] eqn:Hcount; [done|].
    rewrite Nat.iter_succ_r.
    destruct (failing_run env message w a Hn Hp Hs Hf)
      as (w2 & -> & Hq2 & Hp2 & Ht2 & Hc2 & Hst2 & Hsaved).
    assert (Hcount2 : pending_count_of w2 = n).
    { unfold pending_count_of in *. rewrite Hst2, fail_first_count.
      by rewrite Hcount. }
    rewrite <- Hq2 in Hn.
    by apply (drain_aux env message n w2 Hn Hp2 Hs Hcount2).
Qed.

Lemma failing_run_drains_the_queue_witness :
  let w := sample_world [sample_job "A" pending; sample_job "B" applied;
                         sample_job "C" pending] in
  let w' := Nat.iter (pending_count_of w) (fire_last flaky)
                     (processJobQueue flaky w) in
  store w' = fail_all "No tab with id" (store w) ∧ isProcessing w' = false.
Proof.
  intros w w'.
  assert (Hn : NoDup (jobQueue w)) by apply NoDup_seq.
  destruct (failing_run_drains_the_queue flaky "No tab with id" w Hn
              eq_refl eq_refl) as (Hstore & _ & Hproc & _).
  split; [exact Hstore|exact Hproc].
Defined.

(** ** Nothing written to a job is lost *)



(** ** A failed analysis *)


